(** * yoink: admission-gated frontier, URL filters, checkpoint log, worker loop

    A shallow embedding of the crawl orchestrator of yoink
    (src/yoink/scheduler.py, filters.py, checkpoint.py, storage.py,
    crawler.py) and the properties of its specification.

    Python values are modelled as follows: [str] as [string] (a sequence of
    bytes), [int] as [Z], [set[str]] as [gset string], [deque] and [list] as
    [list], [Optional] as [option], a JSON document as [json].  The asyncio
    lock of the scheduler makes each of its operations atomic, so an
    operation is a function on the scheduler state.  Functions of Python
    libraries (urllib, fnmatch, re, json, pydantic) and the external
    collaborators (fetcher, parser, extractor) are fields of type classes;
    executable instances are given where examples are evaluated. *)

From Stdlib Require Import ZArith String Ascii List Lia DecimalString.
From stdpp Require Import base option list gmap sets strings.

Local Open Scope Z_scope.
#[local] Set Warnings "-clear-no-such-hyp".

(** ** Python string operations used by the sources *)

Module Py.

(** [c in s] for a one-character [c]. *)
Fixpoint contains (c : ascii) (s : string) : bool :=
  match s with
  | EmptyString => false
  | String d s' => if decide (c = d) then true else contains c s'
  end.

(** [s.startswith(p)] *)
Definition startswith (s p : string) : bool := String.prefix p s.

(** [s.endswith(p)] *)
Definition endswith (s p : string) : bool :=
  String.prefix (String.rev p) (String.rev s).

(** [p in s] for strings: [p] occurs in [s] at some offset. *)
Fixpoint substring_of (p s : string) : bool :=
  match s with
  | EmptyString => String.prefix p EmptyString
  | String _ s' => String.prefix p s || substring_of p s'
  end.

(** [str.lower] on the ASCII letters. *)
Definition lower_ascii (c : ascii) : ascii :=
  let n := nat_of_ascii c in
  if (Nat.leb 65 n && Nat.leb n 90)%bool then ascii_of_nat (n + 32) else c.

Fixpoint lower (s : string) : string :=
  match s with
  | EmptyString => EmptyString
  | String c s' => String (lower_ascii c) (lower s')
  end.

(** [s.lstrip(c)] for a one-character set. *)
Fixpoint lstrip_char (c : ascii) (s : string) : string :=
  match s with
  | EmptyString => EmptyString
  | String d s' => if decide (c = d) then lstrip_char c s' else s
  end.

(** The characters [str.strip()] removes, among the first 128. *)
Definition isspace (c : ascii) : bool :=
  let n := nat_of_ascii c in
  ((Nat.leb 9 n && Nat.leb n 13) || (Nat.leb 28 n && Nat.leb n 32))%bool.

Fixpoint lstrip (s : string) : string :=
  match s with
  | EmptyString => EmptyString
  | String c s' => if isspace c then lstrip s' else s
  end.

Definition rstrip (s : string) : string := String.rev (lstrip (String.rev s)).

(** [s.strip()] *)
Definition strip (s : string) : string := rstrip (lstrip s).

(** Truth value of a list: [if xs:]. *)
Definition truthy {A} (l : list A) : bool :=
  match l with [] => false | _ => true end.

End Py.

(** ** Computations with state and a non-local exit

    [add] leaves through [return] in the middle of its body and the body of
    the worker's [try] leaves through a raised exception; in both the
    changes made to the state before the exit stay.  [M St E A] threads the
    state and stops at the first exit. *)

Module Eff.
Section Eff.
Context {St E : Type}.

Definition M (A : Type) : Type := St -> St * (E + A).

Definition ret {A} (a : A) : M A := fun s => (s, inr a).

Definition bind {A B} (m : M A) (k : A -> M B) : M B :=
  fun s => match m s with
           | (s', inl e) => (s', inl e)
           | (s', inr a) => k a s'
           end.

Definition gets {A} (f : St -> A) : M A := fun s => (s, inr (f s)).

Definition modify (f : St -> St) : M unit := fun s => (f s, inr tt).

Definition exit {A} (e : E) : M A := fun s => (s, inl e).

(** A one-armed [if]. *)
Definition when (b : bool) (m : M unit) : M unit :=
  if b then m else ret tt.

(** A result-or-exception value entering the computation. *)
Definition lift {A} (r : E + A) : M A := fun s => (s, r).

(** The state a computation leaves, however it ends. *)
Definition exec {A} (m : M A) (s : St) : St := fst (m s).
End Eff.
Arguments M : clear implicits.
End Eff.

Declare Scope eff_scope.
Delimit Scope eff_scope with eff.
Notation "x <- m ;; k" := (Eff.bind m (fun x => k))
  (at level 100, m at next level, k at level 200, right associativity) : eff_scope.
Notation "m ;;; k" := (Eff.bind m (fun _ => k))
  (at level 100, k at level 200, right associativity) : eff_scope.

(** ** URL functions of the Python library

    [urlparse] raises [ValueError] on a URL whose authority has an
    unbalanced bracket; the class gives it on the URLs it accepts, which
    are all that the parser lets through ([_extract_links] applies
    [urlparse] to every link it returns). *)

Class UrlLib := {
  (** [urlparse(url).netloc] *)
  netloc : string -> string;
  (** [urlparse(url).path] *)
  path : string -> string;
  (** [fnmatch(name, pattern)] *)
  fnmatch : string -> string -> bool;
  (** [re.match(pattern, s)]: [None] when the pattern does not compile
      ([re.error]), otherwise whether a match object is returned. *)
  re_match : string -> string -> option bool;
}.

(** ** filters.py *)

Module URLFilter.
Section URLFilter.
Context `{UrlLib}.

Record t := mk {
  include_patterns : list string;
  exclude_patterns : list string;
  skip_extensions : list string;
}.

Definition init (include exclude skip : option (list string)) : t :=
  {| include_patterns := default [] include;
     exclude_patterns := default [] exclude;
     skip_extensions :=
       map (fun ext => Py.lstrip_char "." (Py.lower ext)) (default [] skip) |}.

Definition _match_pattern (url pattern : string) : bool :=
  if Py.contains "*" pattern || Py.contains "?" pattern then
    fnmatch url pattern
  else if Py.startswith pattern "^" || Py.endswith pattern "$"
          || Py.contains "[" pattern then
    match re_match pattern url with
    | Some b => b
    | None => false
    end
  else Py.substring_of pattern url.

Definition should_crawl (self : t) (url : string) : bool :=
  if Py.truthy (skip_extensions self)
     && existsb (fun ext => Py.endswith (Py.lower (path url)) ("." +:+ ext))
                (skip_extensions self)
  then false
  else if Py.truthy (include_patterns self)
          && negb (existsb (_match_pattern url) (include_patterns self))
  then false
  else if Py.truthy (exclude_patterns self)
          && existsb (_match_pattern url) (exclude_patterns self)
  then false
  else true.
End URLFilter.
End URLFilter.

Module DomainFilter.
Section DomainFilter.
Context `{UrlLib}.

Record t := mk { allowed_domains : gset string }.

Definition init (allowed : option (list string)) : t :=
  {| allowed_domains := list_to_set (default [] allowed) |}.

Definition should_crawl (self : t) (url : string) : bool :=
  if bool_decide (allowed_domains self = ∅) then true
  else
    let domain := netloc url in
    if bool_decide (domain ∈ allowed_domains self) then true
    else existsb (fun allowed => Py.endswith domain ("." +:+ allowed))
                 (elements (allowed_domains self)).
End DomainFilter.
End DomainFilter.

Module CombinedFilter.
Section CombinedFilter.
Context `{UrlLib}.

Record t := mk {
  url_filter : option URLFilter.t;
  domain_filter : option DomainFilter.t;
}.

Definition should_crawl (self : t) (url : string) : bool :=
  if match domain_filter self with
     | Some d => negb (DomainFilter.should_crawl d url)
     | None => false
     end
  then false
  else if match url_filter self with
          | Some u => negb (URLFilter.should_crawl u url)
          | None => false
          end
  then false
  else true.

Definition from_config
    (include exclude skip allowed : option (list string)) : t :=
  let nonempty o := Py.truthy (default [] o) in
  {| url_filter :=
       if nonempty include || nonempty exclude || nonempty skip
       then Some (URLFilter.init include exclude skip) else None;
     domain_filter :=
       if nonempty allowed then Some (DomainFilter.init allowed) else None |}.
End CombinedFilter.
End CombinedFilter.

(** ** scheduler.py *)

Module Scheduler.
Section Scheduler.
Context `{UrlLib}.

Record t := mk {
  max_depth : Z;
  follow_external : bool;
  url_filter : option CombinedFilter.t;
  queue : list (string * Z);
  visited : gset string;
  filtered : gset string;
  start_domain : option string;
}.

Definition init (max_depth : Z) (follow_external : bool)
    (url_filter : option CombinedFilter.t) : t :=
  mk max_depth follow_external url_filter [] ∅ ∅ None.

Definition set_start_domain (d : option string) (s : t) : t :=
  mk (max_depth s) (follow_external s) (url_filter s)
     (queue s) (visited s) (filtered s) d.
Definition set_queue (q : list (string * Z)) (s : t) : t :=
  mk (max_depth s) (follow_external s) (url_filter s)
     q (visited s) (filtered s) (start_domain s).
Definition set_visited (v : gset string) (s : t) : t :=
  mk (max_depth s) (follow_external s) (url_filter s)
     (queue s) v (filtered s) (start_domain s).
Definition set_filtered (f : gset string) (s : t) : t :=
  mk (max_depth s) (follow_external s) (url_filter s)
     (queue s) (visited s) f (start_domain s).

(** The body of [add], run under the lock; [Eff.exit tt] is [return]. *)
Definition add_body (url : string) (depth : Z) : Eff.M t unit unit :=
  (sd <- Eff.gets start_domain ;;
   Eff.when (bool_decide (sd = None))
     (Eff.modify (set_start_domain (Some (netloc url)))) ;;;
   seen <- Eff.gets visited ;;
   Eff.when (bool_decide (url ∈ seen)) (Eff.exit tt) ;;;
   limit <- Eff.gets max_depth ;;
   Eff.when (bool_decide (depth > limit)) (Eff.exit tt) ;;;
   external <- Eff.gets follow_external ;;
   Eff.when (negb external)
     (sd <- Eff.gets start_domain ;;
      Eff.when (bool_decide (Some (netloc url) ≠ sd)) (Eff.exit tt)) ;;;
   flt <- Eff.gets url_filter ;;
   Eff.when (match flt with
             | Some f => negb (CombinedFilter.should_crawl f url)
             | None => false
             end)
     (Eff.modify (fun s => set_filtered (filtered s ∪ {[url]}) s) ;;;
      Eff.exit tt) ;;;
   Eff.modify (fun s => set_visited (visited s ∪ {[url]}) s) ;;;
   Eff.modify (fun s => set_queue (queue s ++ [(url, depth)]) s))%eff.

Definition add (self : t) (url : string) (depth : Z) : t :=
  Eff.exec (add_body url depth) self.

(** FIFO pop: the item, if any, and the scheduler after it. *)
Definition get (self : t) : option (string * Z) * t :=
  match queue self with
  | item :: rest => (Some item, set_queue rest self)
  | [] => (None, self)
  end.

(** The scheduler once the start domain is set: the first step of
    [add], which only acts while the start domain is unset. *)
Definition anchored (self : t) (url : string) : t :=
  match start_domain self with
  | None => set_start_domain (Some (netloc url)) self
  | Some _ => self
  end.

(** [url] lies outside the scope the scheduler follows. *)
Definition out_of_scope (self : t) (url : string) : Prop :=
  follow_external self = false
  /\ Some (netloc url) <> start_domain (anchored self url).

(** The URL filter is present and rejects [url]. *)
Definition filter_rejects (self : t) (url : string) : Prop :=
  exists f, url_filter self = Some f /\ CombinedFilter.should_crawl f url = false.

(** [url] at [depth] passes every check of [add]. *)
Definition admissible (self : t) (url : string) (depth : Z) : Prop :=
  (url ∉ visited self) /\ depth <= max_depth self
  /\ ~ out_of_scope self url /\ ~ filter_rejects self url.

(** The calls that change a scheduler, and a sequence of them. *)
Inductive op :=
| Add (url : string) (depth : Z)
| Get.

Definition step (self : t) (o : op) : t :=
  match o with
  | Add url depth => add self url depth
  | Get => snd (get self)
  end.

Definition run (self : t) (ops : list op) : t := fold_left step ops self.

Definition size (self : t) : nat := length (queue self).
Definition visited_count (self : t) : nat := base.size (visited self).
Definition filtered_count (self : t) : nat := base.size (filtered self).
Definition is_empty (self : t) : bool := bool_decide (length (queue self) = 0%nat).
End Scheduler.
End Scheduler.

(** ** JSON documents and the Python libraries around them *)

#[local] Unset Elimination Schemes.
Inductive json :=
| JNull
| JBool (b : bool)
| JInt (n : Z)
| JFloat (repr : string)
| JStr (s : string)
| JList (l : list json)
| JDict (d : list (string * json)).
#[local] Set Elimination Schemes.

(** Exceptions that reach the code of this repository. *)
Inductive exn :=
| ZeroDivisionError
| AttributeError
| TypeError
| ValueError
| Raised (what : string).

Module Json.
(** [d.get(k)] *)
Fixpoint get (k : string) (d : list (string * json)) : option json :=
  match d with
  | [] => None
  | (k', v) :: d' => if decide (k = k') then Some v else get k d'
  end.

(** [d.get(k, default)] *)
Definition get_default (k : string) (dflt : json) (d : list (string * json)) : json :=
  default dflt (get k d).

(** [{k: v for k, v in d.items() if k != key}] *)
Definition without (key : string) (d : list (string * json)) : list (string * json) :=
  filter (fun kv => bool_decide (fst kv ≠ key)) d.

(** Truth value of a document: [if j:]. *)
Definition truthy (j : json) : bool :=
  match j with
  | JNull => false
  | JBool b => b
  | JInt n => bool_decide (n ≠ 0)
  | JFloat _ => true
  | JStr s => bool_decide (s ≠ EmptyString)
  | JList l => Py.truthy l
  | JDict d => Py.truthy d
  end.

(** [v == s] for the result [v] of a [get] and a string [s]. *)
Definition eq_str (v : option json) (s : string) : bool :=
  match v with
  | Some (JStr s') => bool_decide (s' = s)
  | _ => false
  end.

Definition of_option_str (o : option string) : json :=
  match o with Some s => JStr s | None => JNull end.
End Json.

Class JsonLib := {
  (** [json.dumps(obj)] *)
  json_dumps : json -> string;
  (** [json.loads(text)]; [None] is [JSONDecodeError]. *)
  json_loads : string -> option json;
}.

(** ** models.py *)

Module Page.
(** [crawled_at] holds the ISO text of the time stamp, the form in which
    it is dumped and validated. *)
Record t := mk {
  url : string;
  title : option string;
  text : option string;
  html : option string;
  links : list string;
  metadata : list (string * string);
  crawled_at : string;
  status_code : Z;
  depth : Z;
}.

(** [page.model_dump(mode="json")] *)
Definition model_dump (p : t) : list (string * json) :=
  [ ("url", JStr (url p));
    ("title", Json.of_option_str (title p));
    ("text", Json.of_option_str (text p));
    ("html", Json.of_option_str (html p));
    ("links", JList (map JStr (links p)));
    ("metadata", JDict (map (fun kv => (fst kv, JStr (snd kv))) (metadata p)));
    ("crawled_at", JStr (crawled_at p));
    ("status_code", JInt (status_code p));
    ("depth", JInt (depth p)) ].
End Page.

Module CrawlConfig.
Record t := mk {
  max_depth : Z;
  max_pages : Z;
  max_concurrency : Z;
  respect_robots : bool;
  user_agent : string;
  timeout : Z;
  follow_external : bool;
  extract_text : bool;
  save_html : bool;
}.

(** [CrawlConfig()] *)
Definition defaults : t :=
  mk 1 100 10 true "yoink/0.3.0 (+https://github.com/ErikkJs/yoink)" 30
     false true false.

(** The [Field] constraints checked when a configuration is built. *)
Definition valid (c : t) : Prop :=
  0 <= max_depth c /\ 1 <= max_pages c /\ 1 <= max_concurrency c <= 100
  /\ 1 <= timeout c.

(** [config.model_dump()] *)
Definition model_dump (c : t) : list (string * json) :=
  [ ("max_depth", JInt (max_depth c));
    ("max_pages", JInt (max_pages c));
    ("max_concurrency", JInt (max_concurrency c));
    ("respect_robots", JBool (respect_robots c));
    ("user_agent", JStr (user_agent c));
    ("timeout", JInt (timeout c));
    ("follow_external", JBool (follow_external c));
    ("extract_text", JBool (extract_text c));
    ("save_html", JBool (save_html c)) ].
End CrawlConfig.

Class PydanticLib := {
  (** [Page] built from the keyword arguments [fields]; [None] is a
      validation error. *)
  Page_validate : list (string * json) -> option Page.t;
}.

(** ** storage.py *)

(** The calls a manager makes on its storage, in order. *)
Inductive storage_call :=
| CallWrite (data : string)
| CallFlush
| CallClose.

(** The abstract backend.  I/O errors of the backends are not modelled:
    every operation completes. *)
Class CheckpointStorage (S : Type) := {
  write : string -> S -> S;
  read : S -> list string;
  exists_ : S -> bool;
  flush : S -> S;
  close : S -> S;
}.

Module TextIO.
Definition LF : ascii := "010"%char.
Definition CR : ascii := "013"%char.

(** Lines of a text, each with its end.  A line ends after a character
    of [breaks], after a carriage return or after a carriage return and a
    line feed; the last line may have no end.  With [universal] the end of
    a line is given as one line feed, otherwise as it stands in the text.
    [cur] holds the characters of the current line, last first. *)
Fixpoint split_go (breaks : ascii -> bool) (universal : bool)
    (cur : string) (s : string) : list string :=
  match s with
  | EmptyString =>
      match cur with
      | EmptyString => []
      | _ => [String.rev cur]
      end
  | String c s' =>
      if decide (c = CR) then
        match s' with
        | String "010" s'' =>
            String.rev (if universal then String LF cur else String LF (String CR cur))
            :: split_go breaks universal EmptyString s''
        | _ =>
            String.rev (String (if universal then LF else CR) cur)
            :: split_go breaks universal EmptyString s'
        end
      else if breaks c then
        String.rev (String c cur) :: split_go breaks universal EmptyString s'
      else split_go breaks universal (String c cur) s'
  end.

(** Iteration over a file opened in text mode: universal newlines. *)
Definition lines (s : string) : list string :=
  split_go (fun c => bool_decide (c = LF)) true EmptyString s.

(** [s.splitlines(keepends=True)], on the first 128 characters. *)
Definition splitlines_keepends (s : string) : list string :=
  split_go
    (fun c =>
       let n := nat_of_ascii c in
       bool_decide (c = LF) || (Nat.leb 11 n && Nat.leb n 12) || (Nat.leb 28 n && Nat.leb n 30))
    false EmptyString s.

(** Every character is a printing ASCII character, as in the output of
    [json.dumps] with [ensure_ascii]. *)
Fixpoint plain (s : string) : bool :=
  match s with
  | EmptyString => true
  | String c s' =>
      let n := nat_of_ascii c in
      Nat.leb 32 n && Nat.leb n 126 && plain s'
  end.

(** [''.join(parts)] *)
Fixpoint join (parts : list string) : string :=
  match parts with
  | [] => EmptyString
  | part :: rest => part +:+ join rest
  end.
End TextIO.

Module LocalFileStorage.
(** [file] is the content of the file at [path] ([None]: no such file);
    [_file_handle] is the open handle with the data written through it
    and not yet flushed ([None]: no handle). *)
Record t := mk {
  file : option string;
  _file_handle : option string;
}.

(** A path at which there is no file yet. *)
Definition init : t := mk None None.

Definition exists_ (self : t) : bool := bool_decide (is_Some (file self)).

Definition write (data : string) (self : t) : t :=
  match _file_handle self with
  | None => mk (Some (default EmptyString (file self))) (Some data)
  | Some buffered => mk (file self) (Some (buffered +:+ data))
  end.

Definition read (self : t) : list string :=
  if negb (exists_ self) then []
  else TextIO.lines (default EmptyString (file self)).

Definition flush (self : t) : t :=
  match _file_handle self with
  | Some buffered =>
      mk (Some (default EmptyString (file self) +:+ buffered)) (Some EmptyString)
  | None => self
  end.

Definition close (self : t) : t :=
  match _file_handle self with
  | Some buffered =>
      mk (Some (default EmptyString (file self) +:+ buffered)) None
  | None => self
  end.
End LocalFileStorage.

#[export] Instance LocalFileStorage_storage : CheckpointStorage LocalFileStorage.t := {
  write := LocalFileStorage.write;
  read := LocalFileStorage.read;
  exists_ := LocalFileStorage.exists_;
  flush := LocalFileStorage.flush;
  close := LocalFileStorage.close;
}.

Module S3Storage.
(** [object] is the content stored under the bucket and key ([None]: no
    such key); the text is ASCII, so encoding and decoding leave it as it
    is.  [_buffer] holds the writes since the last upload. *)
Record t := mk {
  object : option string;
  _buffer : list string;
}.

(** A key under which nothing is stored yet. *)
Definition init : t := mk None [].

Definition write (data : string) (self : t) : t :=
  mk (object self) (_buffer self ++ [data]).

Definition exists_ (self : t) : bool := bool_decide (is_Some (object self)).

Definition read (self : t) : list string :=
  if negb (exists_ self) then []
  else TextIO.splitlines_keepends (default EmptyString (object self)).

(** Download, append the buffer, upload again. *)
Definition flush (self : t) : t :=
  if negb (Py.truthy (_buffer self)) then self
  else
    let data := TextIO.join (_buffer self) in
    let existing_data :=
      if exists_ self then default EmptyString (object self) else EmptyString in
    mk (Some (existing_data +:+ data)) [].

Definition close (self : t) : t :=
  if Py.truthy (_buffer self) then flush self else self.
End S3Storage.

#[export] Instance S3Storage_storage : CheckpointStorage S3Storage.t := {
  write := S3Storage.write;
  read := S3Storage.read;
  exists_ := S3Storage.exists_;
  flush := S3Storage.flush;
  close := S3Storage.close;
}.

(** What the contract of the storage backends says of an implementation:
    [durable] is the text a reader sees, [pending] the text written and
    not yet flushed.  A write adds to the pending text, a flush (and a
    close) moves it to the durable text, a flush after a write leaves a
    log that exists, and a log that exists is read as the lines of its
    durable text. *)
Record StorageLaws (S : Type) `{CheckpointStorage S} := {
  durable : S -> string;
  pending : S -> string;
  durable_write : forall d s, durable (write d s) = durable s;
  pending_write : forall d s, pending (write d s) = pending s +:+ d;
  durable_flush : forall s, durable (flush s) = durable s +:+ pending s;
  pending_flush : forall s, pending (flush s) = EmptyString;
  durable_close : forall s, durable (close s) = durable s +:+ pending s;
  exists_flush_write : forall d s, exists_ (flush (write d s)) = true;
  exists_write : forall d s, exists_ s = true -> exists_ (write d s) = true;
  exists_flush : forall s, exists_ s = true -> exists_ (flush s) = true;
  exists_close : forall s, exists_ s = true -> exists_ (close s) = true;
  read_lines : forall s (ls : list string),
    exists_ s = true ->
    durable s = TextIO.join (map (fun l => l +:+ String TextIO.LF EmptyString) ls) ->
    Forall (fun l => TextIO.plain l = true) ls ->
    read s = map (fun l => l +:+ String TextIO.LF EmptyString) ls;
}.
Arguments durable {S _} _ _.
Arguments pending {S _} _ _.


(** ** checkpoint.py *)




(** The flush that follows the write of a page once [count] pages are
    written: one when [count] is a multiple of the interval, none
    otherwise. *)
Definition flush_due (interval count : Z) : list storage_call :=
  if bool_decide (count mod interval = 0) then [CallFlush] else [].

(** The arguments of one call of [write_state]: the sets and the queue of
    the frontier, and the clock reading. *)
Module Snapshot.
Record t := mk {
  visited : gset string;
  queue : list (string * Z);
  filtered : gset string;
  saved_at : string;
}.
End Snapshot.

(** The entries of the checkpoint log, a tagged union. *)
Module LogEntry.
Inductive t :=
| Metadata (data : list (string * json))
| PageRecord (page : Page.t)
| FrontierSnapshot (data : list (string * json)).
End LogEntry.

(** What [load] returns. *)
Module Loaded.
Record t := mk {
  metadata : option json;
  pages : list Page.t;
  state : option json;
}.
Definition empty : t := mk None [] None.
End Loaded.

Module CheckpointManager.
Section CheckpointManager.
Context `{JsonLib} `{PydanticLib} {S : Type} `{CheckpointStorage S}.

(** [calls] is not a field of the Python object: it records the calls
    made on [storage], oldest first. *)
Record t := mk {
  storage : S;
  flush_interval : Z;
  _page_count : Z;
  calls : list storage_call;
}.

Definition init (storage : S) (flush_interval : Z) : t :=
  mk storage flush_interval 0 [].

Definition storage_write (data : string) (self : t) : t :=
  mk (write data (storage self)) (flush_interval self) (_page_count self)
     (calls self ++ [CallWrite data]).
Definition storage_flush (self : t) : t :=
  mk (flush (storage self)) (flush_interval self) (_page_count self)
     (calls self ++ [CallFlush]).
Definition storage_close (self : t) : t :=
  mk (close (storage self)) (flush_interval self) (_page_count self)
     (calls self ++ [CallClose]).
Definition set_page_count (n : Z) (self : t) : t :=
  mk (storage self) (flush_interval self) n (calls self).

Definition newline : string := String "010" EmptyString.

Definition metadata_record (start_url : string) (config : CrawlConfig.t)
    (now : string) : json :=
  JDict [ ("type", JStr "metadata");
          ("start_url", JStr start_url);
          ("config", JDict (CrawlConfig.model_dump config));
          ("started_at", JStr now) ].

Definition page_record (page : Page.t) : json :=
  JDict (("type", JStr "page") :: Page.model_dump page).

Definition state_record (visited : gset string) (queue : list (string * Z))
    (filtered : gset string) (now : string) : json :=
  JDict [ ("type", JStr "state");
          ("visited", JList (map JStr (elements visited)));
          ("queue", JList (map (fun item => JList [JStr (fst item); JInt (snd item)]) queue));
          ("filtered", JList (map JStr (elements filtered)));
          ("saved_at", JStr now) ].

(** [now] is the reading of the clock, [datetime.utcnow().isoformat()]. *)
Definition write_metadata (start_url : string) (config : CrawlConfig.t)
    (now : string) (self : t) : t :=
  storage_flush
    (storage_write (json_dumps (metadata_record start_url config now) +:+ newline) self).

(** [a % b] *)
Definition py_mod (a b : Z) : exn + Z :=
  if decide (b = 0) then inl ZeroDivisionError else inr (a mod b).

Definition write_page (page : Page.t) : Eff.M t exn unit :=
  (Eff.modify (storage_write (json_dumps (page_record page) +:+ newline)) ;;;
   Eff.modify (fun self => set_page_count (_page_count self + 1) self) ;;;
   count <- Eff.gets _page_count ;;
   interval <- Eff.gets flush_interval ;;
   r <- Eff.lift (py_mod count interval) ;;
   Eff.when (bool_decide (r = 0)) (Eff.modify storage_flush))%eff.

Definition write_state (visited : gset string) (queue : list (string * Z))
    (filtered : gset string) (now : string) (self : t) : t :=
  storage_flush
    (storage_write (json_dumps (state_record visited queue filtered now) +:+ newline) self).

(** One turn of the loop of [load] over the lines of the log. *)
Definition load_line (acc : Loaded.t) (line : string) : Loaded.t :=
  let line := Py.strip line in
  if bool_decide (line = EmptyString) then acc
  else
    match json_loads line with
    | None => acc (* JSONDecodeError *)
    | Some (JDict d) =>
        let data_type := Json.get "type" d in
        if Json.eq_str data_type "metadata" then
          Loaded.mk (Some (JDict d)) (Loaded.pages acc) (Loaded.state acc)
        else if Json.eq_str data_type "page" then
          match Page_validate (Json.without "type" d) with
          | Some page =>
              Loaded.mk (Loaded.metadata acc) (Loaded.pages acc ++ [page]) (Loaded.state acc)
          | None => acc (* validation error *)
          end
        else if Json.eq_str data_type "state" then
          Loaded.mk (Loaded.metadata acc) (Loaded.pages acc) (Some (JDict d))
        else acc
    | Some _ => acc (* no [get] on a document that is not a dict *)
    end.

Definition load (self : t) : Loaded.t :=
  if negb (exists_ (storage self)) then Loaded.empty
  else fold_left load_line (read (storage self)) Loaded.empty.

Definition close_ (self : t) : t := storage_close (storage_flush self).

(** [write_page] for each page of a list, in order. *)
Fixpoint write_pages (pages : list Page.t) : Eff.M t exn unit :=
  match pages with
  | [] => Eff.ret tt
  | page :: rest => (write_page page ;;; write_pages rest)%eff
  end.

(** [write_state] for each snapshot of a list, in order. *)
Definition write_states (snapshots : list Snapshot.t) (self : t) : t :=
  fold_left
    (fun m snap =>
       write_state (Snapshot.visited snap) (Snapshot.queue snap)
         (Snapshot.filtered snap) (Snapshot.saved_at snap) m)
    snapshots self.

(** The line that holds a record. *)
Definition line_of (record : json) : string := json_dumps record +:+ newline.

(** The record that [write_state] writes for a snapshot. *)
Definition snapshot_record (snap : Snapshot.t) : json :=
  state_record (Snapshot.visited snap) (Snapshot.queue snap)
    (Snapshot.filtered snap) (Snapshot.saved_at snap).

(** What the JSON library does on a record that is written: its text is
    one line of printing ASCII characters, and the line, stripped, is
    neither empty nor read back as anything but the record. *)
Definition round_trips (record : json) : Prop :=
  TextIO.plain (json_dumps record) = true
  /\ Py.strip (line_of record) <> EmptyString
  /\ json_loads (Py.strip (line_of record)) = Some record.

(** The replay as the specification words it: a line is blank, or
    malformed, or holds one tagged record; metadata is retained, a page
    record is appended to the ordered list, a snapshot overwrites the
    current one. *)
Definition record_of_line (line : string) : option LogEntry.t :=
  if bool_decide (Py.strip line = EmptyString) then None
  else
    match json_loads (Py.strip line) with
    | Some (JDict d) =>
        match Json.get "type" d with
        | Some (JStr tag) =>
            if bool_decide (tag = "metadata") then Some (LogEntry.Metadata d)
            else if bool_decide (tag = "page") then
              LogEntry.PageRecord <$> Page_validate (Json.without "type" d)
            else if bool_decide (tag = "state") then Some (LogEntry.FrontierSnapshot d)
            else None
        | _ => None
        end
    | _ => None
    end.

Definition replay_entry (acc : Loaded.t) (entry : LogEntry.t) : Loaded.t :=
  match entry with
  | LogEntry.Metadata d =>
      Loaded.mk (Some (JDict d)) (Loaded.pages acc) (Loaded.state acc)
  | LogEntry.PageRecord page =>
      Loaded.mk (Loaded.metadata acc) (Loaded.pages acc ++ [page]) (Loaded.state acc)
  | LogEntry.FrontierSnapshot d =>
      Loaded.mk (Loaded.metadata acc) (Loaded.pages acc) (Some (JDict d))
  end.

Definition replay (entries : list LogEntry.t) : Loaded.t :=
  fold_left replay_entry entries Loaded.empty.

End CheckpointManager.
Arguments t S : clear implicits.
End CheckpointManager.

Section LogContent.
Context {S : Type} `{CheckpointStorage S}.
Variable L : StorageLaws S.

(** All the text written to a storage, flushed or not. *)
Definition total (s : S) : string := durable L s +:+ pending L s.

(** What a manager's log holds once everything written is flushed. *)
Definition holds (m : CheckpointManager.t S) (text : string) : Prop :=
  exists_ (CheckpointManager.storage m) = true
  /\ durable L (CheckpointManager.storage m) = text
  /\ pending L (CheckpointManager.storage m) = EmptyString.
End LogContent.

(** ** crawler.py *)

(** What [Parser.parse] returns. *)
Module Parsed.
Record t := mk {
  title : option string;
  links : list string;
  metadata : list (string * string);
}.
End Parsed.

(** The external collaborators of the worker; [inl] is a raised exception. *)
Class Collaborators := {
  (** [fetcher.fetch(url)]: content and status code *)
  fetch : string -> exn + (string * Z);
  (** [parser.parse(html, url)] *)
  parse : string -> string -> exn + Parsed.t;
  (** [extractor.extract(html, url)] *)
  extract : string -> string -> exn + option string;
}.

(** How one turn of the worker's [while True] ends. *)
Inductive control := Continue | Break.

Module Crawler.
Section Crawler.
Context `{UrlLib} `{JsonLib} `{PydanticLib} `{Collaborators}
        {S : Type} `{CheckpointStorage S}.

(** [log] holds the names of the events sent to the logger by the
    functions of this module, oldest first. *)
Record t := mk {
  config : CrawlConfig.t;
  scheduler : Scheduler.t;
  pages : list Page.t;
  checkpoint_manager : option (CheckpointManager.t S);
  log : list string;
}.

Definition init (config : option CrawlConfig.t)
    (url_filter : option CombinedFilter.t)
    (checkpoint_manager : option (CheckpointManager.t S)) : t :=
  let config := default CrawlConfig.defaults config in
  mk config
     (Scheduler.init (CrawlConfig.max_depth config)
        (CrawlConfig.follow_external config) url_filter)
     [] checkpoint_manager [].

Definition set_scheduler (sch : Scheduler.t) (self : t) : t :=
  mk (config self) sch (pages self) (checkpoint_manager self) (log self).
Definition set_pages (ps : list Page.t) (self : t) : t :=
  mk (config self) (scheduler self) ps (checkpoint_manager self) (log self).
Definition set_checkpoint_manager (m : option (CheckpointManager.t S)) (self : t) : t :=
  mk (config self) (scheduler self) (pages self) m (log self).
Definition logger (event : string) (self : t) : t :=
  mk (config self) (scheduler self) (pages self) (checkpoint_manager self)
     (log self ++ [event]).

(** [if self.checkpoint_manager: await self.checkpoint_manager.write_page(page)] *)
Definition checkpoint_write_page (page : Page.t) : Eff.M t exn unit :=
  fun self =>
    match checkpoint_manager self with
    | None => (self, inr tt)
    | Some m =>
        let (m', r) := CheckpointManager.write_page page m in
        (set_checkpoint_manager (Some m') self, r)
    end.

(** The body of the [try] of [_worker] for a popped [(url, depth)];
    [now] is the clock reading that stamps the page. *)
Definition _worker_try (url : string) (depth : Z) (now : string)
    : Eff.M t exn unit :=
  (fetched <- Eff.lift (fetch url) ;;
   parsed <- Eff.lift (parse (fst fetched) url) ;;
   cfg <- Eff.gets config ;;
   text <- (if CrawlConfig.extract_text cfg
            then Eff.lift (extract (fst fetched) url)
            else Eff.ret None) ;;
   let page :=
     Page.mk url (Parsed.title parsed) text
       (if CrawlConfig.save_html cfg then Some (fst fetched) else None)
       (Parsed.links parsed) (Parsed.metadata parsed) now (snd fetched) depth in
   Eff.modify (fun self => set_pages (pages self ++ [page]) self) ;;;
   checkpoint_write_page page ;;;
   Eff.modify (logger "page_crawled") ;;;
   Eff.modify (fun self =>
     set_scheduler
       (fold_left (fun sch link => Scheduler.add sch link (depth + 1))
          (Parsed.links parsed) (scheduler self))
       self))%eff.

(** One turn of the [while True] of [_worker]. *)
Definition _worker_turn (now : string) (self : t) : t * control :=
  if bool_decide (Z.of_nat (length (pages self)) >= CrawlConfig.max_pages (config self))
  then (self, Break)
  else
    match Scheduler.get (scheduler self) with
    | (None, _) =>
        (* asyncio.sleep(0.1) *)
        if Scheduler.is_empty (scheduler self)
           && bool_decide (0 < length (pages self))%nat
        then (self, Break) else (self, Continue)
    | (Some (url, depth), rest) =>
        match _worker_try url depth now (set_scheduler rest self) with
        | (self', inr _) => (self', Continue)
        | (self', inl _) => (logger "crawl_error" self', Continue)
        end
    end.

(** The loop of [_worker], for at most [fuel] turns; [clock n] is the
    clock reading in the turn with [n] turns left.  [None]: the loop has
    not left within [fuel] turns. *)
Fixpoint _worker (clock : nat -> string) (fuel : nat) (self : t) : option t :=
  match fuel with
  | O => None
  | Datatypes.S n =>
      match _worker_turn (clock n) self with
      | (self', Break) => Some self'
      | (self', Continue) => _worker clock n self'
      end
  end.

(** The members of a JSON list of strings.  The sets of the model hold
    strings only: a snapshot whose list holds anything else, which a log
    written by [write_state] never does, ends the restore with
    [TypeError]. *)
Fixpoint strings_of (l : list json) : exn + list string :=
  match l with
  | [] => inr []
  | JStr s :: l' =>
      match strings_of l' with inr r => inr (s :: r) | inl e => inl e end
  | _ => inl TypeError
  end.

(** The pairs of a JSON list of [[url, depth]] items, as
    [for url, depth in ...] unpacks them.  An item that is not a string
    and an integer, which a log written by [write_state] never holds, ends
    the restore with [ValueError]. *)
Fixpoint items_of (l : list json) : exn + list (string * Z) :=
  match l with
  | [] => inr []
  | JList [JStr u; JInt d] :: l' =>
      match items_of l' with inr r => inr ((u, d) :: r) | inl e => inl e end
  | _ => inl ValueError
  end.

(** [st.get(k, [])], when it is a list. *)
Definition list_field (k : string) (st : json) : exn + list json :=
  match st with
  | JDict d =>
      match Json.get_default k (JList []) d with
      | JList l => inr l
      | _ => inl TypeError
      end
  | _ => inl AttributeError
  end.

Definition dict_get (k : string) (j : json) : option json :=
  match j with JDict d => Json.get k d | _ => None end.

(** The branch of [_resume_from_checkpoint] that restores the scheduler
    from the snapshot [st]. *)
Definition restore_state (st : json) : Eff.M t exn unit :=
  (vs <- Eff.lift (list_field "visited" st) ;;
   urls <- Eff.lift (strings_of vs) ;;
   Eff.modify (fun self =>
     set_scheduler
       (fold_left (fun sch u => Scheduler.set_visited (Scheduler.visited sch ∪ {[u]}) sch)
          urls (scheduler self)) self) ;;;
   fs <- Eff.lift (list_field "filtered" st) ;;
   furls <- Eff.lift (strings_of fs) ;;
   Eff.modify (fun self =>
     set_scheduler
       (fold_left (fun sch u => Scheduler.set_filtered (Scheduler.filtered sch ∪ {[u]}) sch)
          furls (scheduler self)) self) ;;;
   qs <- Eff.lift (list_field "queue" st) ;;
   items <- Eff.lift (items_of qs) ;;
   Eff.modify (fun self =>
     set_scheduler
       (fold_left (fun sch item => Scheduler.set_queue (Scheduler.queue sch ++ [item]) sch)
          items (scheduler self)) self) ;;;
   sch <- Eff.gets scheduler ;;
   Eff.when (Py.truthy (Scheduler.queue sch)
             || negb (bool_decide (Scheduler.visited sch = ∅)))
     (let first_url :=
        match elements (Scheduler.visited sch), Scheduler.queue sch with
        | u :: _, _ => u
        | [], (u, _) :: _ => u
        | [], [] => EmptyString
        end in
      Eff.modify (fun self =>
        set_scheduler
          (Scheduler.set_start_domain (Some (netloc first_url)) (scheduler self))
          self)) ;;;
   Eff.modify (logger "checkpoint_state_restored"))%eff.

Definition _resume_from_checkpoint (start_url : string) : Eff.M t exn unit :=
  (Eff.modify (logger "resuming_from_checkpoint") ;;;
   cm <- Eff.gets checkpoint_manager ;;
   match cm with
   | None => Eff.exit AttributeError
   | Some m =>
       let checkpoint_data := CheckpointManager.load m in
       Eff.when
         (match Loaded.metadata checkpoint_data with
          | Some md =>
              Json.truthy md && negb (Json.eq_str (dict_get "start_url" md) start_url)
          | None => false
          end)
         (Eff.modify (logger "checkpoint_url_mismatch")) ;;;
       Eff.modify (set_pages (Loaded.pages checkpoint_data)) ;;;
       Eff.modify (logger "checkpoint_pages_restored") ;;;
       match Loaded.state checkpoint_data with
       | Some st =>
           if Json.truthy st then restore_state st
           else (Eff.modify (logger "no_checkpoint_state_found") ;;;
                 Eff.modify (fun self =>
                   set_scheduler (Scheduler.add (scheduler self) start_url 0) self))
       | None =>
           Eff.modify (logger "no_checkpoint_state_found") ;;;
           Eff.modify (fun self =>
             set_scheduler (Scheduler.add (scheduler self) start_url 0) self)
       end
   end)%eff.

Definition _save_checkpoint_state (now : string) (self : t) : t :=
  match checkpoint_manager self with
  | None => self
  | Some m =>
      let sch := scheduler self in
      set_checkpoint_manager
        (Some (CheckpointManager.write_state (Scheduler.visited sch)
                 (Scheduler.queue sch) (Scheduler.filtered sch) now m))
        self
  end.

(** The part of [crawl] before the workers are started. *)
Definition crawl_begin (start_url : string) (resume : bool) (now : string)
    : Eff.M t exn unit :=
  (Eff.modify (logger "crawl_started") ;;;
   cm <- Eff.gets checkpoint_manager ;;
   if resume && bool_decide (is_Some cm) then _resume_from_checkpoint start_url
   else
     (Eff.modify (fun self =>
        match checkpoint_manager self with
        | Some m =>
            set_checkpoint_manager
              (Some (CheckpointManager.write_metadata start_url (config self) now m)) self
        | None => self
        end) ;;;
      Eff.modify (fun self =>
        set_scheduler (Scheduler.add (scheduler self) start_url 0) self)))%eff.

(** The part of [crawl] after the workers have ended. *)
Definition crawl_end (now : string) (self : t) : t :=
  match checkpoint_manager self with
  | Some _ =>
      let self' := _save_checkpoint_state now self in
      logger "crawl_completed"
        (set_checkpoint_manager
           (CheckpointManager.close_ <$> checkpoint_manager self') self')
  | None => logger "crawl_completed" self
  end.
End Crawler.
Arguments t S : clear implicits.
End Crawler.

(** ** Executable instances of the library classes

    The instances below let the definitions above be evaluated on concrete
    inputs.  They follow the Python functions on the inputs used in this
    development: URLs of the form [scheme://authority/path?query#fragment],
    patterns built from [*], [?] and plain characters, and JSON texts
    whose numbers are integers and whose strings are ASCII. *)

Module Urllib.
Definition is_alpha (c : ascii) : bool :=
  let n := nat_of_ascii (Py.lower_ascii c) in (Nat.leb 97 n && Nat.leb n 122)%bool.

Definition is_scheme_char (c : ascii) : bool :=
  let n := nat_of_ascii c in
  (is_alpha c || (Nat.leb 48 n && Nat.leb n 57)
   || bool_decide (c = "+"%char) || bool_decide (c = "-"%char)
   || bool_decide (c = "."%char))%bool.

(** The text after [scheme:] when the URL starts with a scheme. *)
Fixpoint after_colon (s : string) : option string :=
  match s with
  | EmptyString => None
  | String c s' =>
      if bool_decide (c = ":"%char) then Some s'
      else if is_scheme_char c then after_colon s' else None
  end.

Definition drop_scheme (url : string) : string :=
  match url with
  | String c _ =>
      if bool_decide (c ≠ ":"%char) && is_alpha c
      then default url (after_colon url) else url
  | EmptyString => url
  end.

(** Split before the first character that satisfies [stop]. *)
Fixpoint break (stop : ascii -> bool) (s : string) : string * string :=
  match s with
  | EmptyString => (EmptyString, EmptyString)
  | String c s' =>
      if stop c then (EmptyString, s)
      else let (a, b) := break stop s' in (String c a, b)
  end.

Definition is_delim (c : ascii) : bool :=
  bool_decide (c = "/"%char) || bool_decide (c = "?"%char)
  || bool_decide (c = "#"%char).

(** Authority and the rest of a URL. *)
Definition split_netloc (url : string) : string * string :=
  match drop_scheme url with
  | String "/" (String "/" rest) => break is_delim rest
  | rest => (EmptyString, rest)
  end.

Definition netloc (url : string) : string := fst (split_netloc url).

Definition path (url : string) : string :=
  fst (break (fun c => bool_decide (c = "?"%char) || bool_decide (c = "#"%char))
         (snd (split_netloc url))).
End Urllib.

Module Glob.
(** [fnmatch] for a pattern of [*] (any run of characters), [?] (any one
    character) and characters that stand for themselves. *)
Fixpoint matches (pattern : string) : string -> bool :=
  match pattern with
  | EmptyString => fun name => bool_decide (name = EmptyString)
  | String "*" rest =>
      fix star (name : string) : bool :=
        matches rest name
        || match name with
           | EmptyString => false
           | String _ name' => star name'
           end
  | String "?" rest =>
      fun name =>
        match name with
        | EmptyString => false
        | String _ name' => matches rest name'
        end
  | String c rest =>
      fun name =>
        match name with
        | EmptyString => false
        | String d name' => bool_decide (c = d) && matches rest name'
        end
  end.

Definition fnmatch (name pattern : string) : bool := matches pattern name.
End Glob.

(** The URL library with [re.match] left as a parameter. *)
Definition url_lib (re : string -> string -> option bool) : UrlLib := {|
  netloc := Urllib.netloc;
  path := Urllib.path;
  fnmatch := Glob.fnmatch;
  re_match := re;
|}.

(** A regular expression engine that accepts no pattern; the examples use
    no pattern that is dispatched to it. *)
Definition no_re : string -> string -> option bool := fun _ _ => None.

Module JsonText.
Definition dquote : ascii := "034"%char.
Definition backslash : ascii := "092"%char.

Definition hex_digit (n : nat) : ascii :=
  nth n (list_ascii_of_string "0123456789abcdef") "0"%char.

(** The escape of one character inside a string, with [ensure_ascii]. *)
Definition escape (c : ascii) : string :=
  let n := nat_of_ascii c in
  if bool_decide (c = dquote) then String backslash (String dquote EmptyString)
  else if bool_decide (c = backslash) then String backslash (String backslash EmptyString)
  else if bool_decide (n = 8%nat) then String backslash "b"
  else if bool_decide (n = 9%nat) then String backslash "t"
  else if bool_decide (n = 10%nat) then String backslash "n"
  else if bool_decide (n = 12%nat) then String backslash "f"
  else if bool_decide (n = 13%nat) then String backslash "r"
  else if (Nat.leb 32 n && Nat.leb n 126)%bool then String c EmptyString
  else String backslash
         (String "u" (String "0" (String "0"
            (String (hex_digit (n / 16)) (String (hex_digit (n mod 16)) EmptyString))))).

Fixpoint escape_all (s : string) : string :=
  match s with
  | EmptyString => EmptyString
  | String c s' => escape c +:+ escape_all s'
  end.

Definition quote (s : string) : string :=
  String dquote (escape_all s +:+ String dquote EmptyString).

Fixpoint join (sep : string) (l : list string) : string :=
  match l with
  | [] => EmptyString
  | [x] => x
  | x :: l' => x +:+ sep +:+ join sep l'
  end.

Definition string_of_Z (n : Z) : string :=
  DecimalString.NilZero.string_of_int (Z.to_int n).

(** [json.dumps] with its default separators. *)
Fixpoint dumps (j : json) : string :=
  match j with
  | JNull => "null"
  | JBool true => "true"
  | JBool false => "false"
  | JInt n => string_of_Z n
  | JFloat repr => repr
  | JStr s => quote s
  | JList l => "[" +:+ join ", " (map dumps l) +:+ "]"
  | JDict d =>
      "{" +:+ join ", " (map (fun kv : string * json => let (k, v) := kv in quote k +:+ ": " +:+ dumps v) d)
      +:+ "}"
  end.

(** Whitespace between the tokens of a JSON text. *)
Definition is_ws (c : ascii) : bool :=
  let n := nat_of_ascii c in
  bool_decide (n = 32%nat) || bool_decide (n = 9%nat)
  || bool_decide (n = 10%nat) || bool_decide (n = 13%nat).

Fixpoint skip_ws (s : string) : string :=
  match s with
  | String c s' => if is_ws c then skip_ws s' else s
  | EmptyString => s
  end.

Definition expect (word : string) (s : string) (v : json) : option (json * string) :=
  if String.prefix word s
  then Some (v, String.substring (String.length word) (String.length s - String.length word) s)
  else None.

Definition digit_of (c : ascii) : option Z :=
  let n := nat_of_ascii c in
  if (Nat.leb 48 n && Nat.leb n 57)%bool then Some (Z.of_nat (n - 48)) else None.

Definition hex_of (c : ascii) : option nat :=
  let n := nat_of_ascii (Py.lower_ascii c) in
  if (Nat.leb 48 n && Nat.leb n 57)%bool then Some (n - 48)%nat
  else if (Nat.leb 97 n && Nat.leb n 102)%bool then Some (n - 87)%nat
  else None.

(** The digits at the head of [s], as a number, and the rest. *)
Fixpoint digits (acc : Z) (s : string) : Z * string :=
  match s with
  | String c s' =>
      match digit_of c with
      | Some d => digits (10 * acc + d) s'
      | None => (acc, s)
      end
  | EmptyString => (acc, s)
  end.

(** An integer: one zero or a run of digits that does not start with a
    zero; a fraction or an exponent after it is not read. *)
Definition unsigned (s : string) : option (Z * string) :=
  match s with
  | String "0" s' => Some (0, s')
  | String c _ =>
      match digit_of c with
      | Some _ => Some (digits 0 s)
      | None => None
      end
  | EmptyString => None
  end.

Definition number (s : string) : option (json * string) :=
  let r := match s with
           | String "-" s' => prod_map Z.opp id <$> unsigned s'
           | _ => unsigned s
           end in
  match r with
  | Some (n, String c rest) =>
      if bool_decide (c = "."%char) || bool_decide (c = "e"%char)
         || bool_decide (c = "E"%char)
      then None else Some (JInt n, String c rest)
  | Some (n, EmptyString) => Some (JInt n, EmptyString)
  | None => None
  end.

(** The characters of a string up to its closing quote, and the rest. *)
Fixpoint chars (s : string) : option (string * string) :=
  match s with
  | EmptyString => None
  | String c s' =>
      if bool_decide (c = dquote) then Some (EmptyString, s')
      else if bool_decide (c = backslash) then
        match s' with
        | String e s'' =>
            let plain (x : ascii) :=
              prod_map (String x) id <$> chars s'' in
            if bool_decide (e = dquote) then plain dquote
            else if bool_decide (e = backslash) then plain backslash
            else if bool_decide (e = "/"%char) then plain "/"%char
            else if bool_decide (e = "b"%char) then plain "008"%char
            else if bool_decide (e = "f"%char) then plain "012"%char
            else if bool_decide (e = "n"%char) then plain "010"%char
            else if bool_decide (e = "r"%char) then plain "013"%char
            else if bool_decide (e = "t"%char) then plain "009"%char
            else if bool_decide (e = "u"%char) then
              match s'' with
              | String "0" (String "0" (String h (String l s3))) =>
                  match hex_of h, hex_of l with
                  | Some a, Some b =>
                      prod_map (String (ascii_of_nat (16 * a + b))) id <$> chars s3
                  | _, _ => None
                  end
              | _ => None
              end
            else None
        | EmptyString => None
        end
      else if Nat.ltb (nat_of_ascii c) 32 then None
      else prod_map (String c) id <$> chars s'
  end.

(** [d[k] = v] *)
Fixpoint dict_set (k : string) (v : json) (d : list (string * json))
    : list (string * json) :=
  match d with
  | [] => [(k, v)]
  | (k', v') :: d' =>
      if decide (k = k') then (k, v) :: d' else (k', v') :: dict_set k v d'
  end.

Fixpoint value (fuel : nat) (s : string) : option (json * string) :=
  match fuel with
  | O => None
  | Datatypes.S fuel' =>
      match skip_ws s with
      | EmptyString => None
      | String c rest =>
          if bool_decide (c = "n"%char) then expect "ull" rest JNull
          else if bool_decide (c = "t"%char) then expect "rue" rest (JBool true)
          else if bool_decide (c = "f"%char) then expect "alse" rest (JBool false)
          else if bool_decide (c = dquote) then prod_map JStr id <$> chars rest
          else if bool_decide (c = "["%char) then
            match skip_ws rest with
            | String "]" rest' => Some (JList [], rest')
            | rest' => prod_map JList id <$> items fuel' rest'
            end
          else if bool_decide (c = "{"%char) then
            match skip_ws rest with
            | String "}" rest' => Some (JDict [], rest')
            | rest' => prod_map JDict id <$> members fuel' [] rest'
            end
          else number (String c rest)
      end
  end
with items (fuel : nat) (s : string) : option (list json * string) :=
  match fuel with
  | O => None
  | Datatypes.S fuel' =>
      match value fuel' s with
      | Some (v, rest) =>
          match skip_ws rest with
          | String "," rest' => prod_map (cons v) id <$> items fuel' rest'
          | String "]" rest' => Some ([v], rest')
          | _ => None
          end
      | None => None
      end
  end
with members (fuel : nat) (acc : list (string * json)) (s : string)
    : option (list (string * json) * string) :=
  match fuel with
  | O => None
  | Datatypes.S fuel' =>
      match skip_ws s with
      | String q rest =>
          if bool_decide (q = dquote) then
            match chars rest with
            | Some (k, rest1) =>
                match skip_ws rest1 with
                | String ":" rest2 =>
                    match value fuel' rest2 with
                    | Some (v, rest3) =>
                        match skip_ws rest3 with
                        | String "," rest4 => members fuel' (dict_set k v acc) rest4
                        | String "}" rest4 => Some (dict_set k v acc, rest4)
                        | _ => None
                        end
                    | None => None
                    end
                | _ => None
                end
            | None => None
            end
          else None
      | EmptyString => None
      end
  end.

(** [json.loads]: one value, with nothing but whitespace after it. *)
Definition loads (s : string) : option json :=
  match value (2 * String.length s + 2) s with
  | Some (v, rest) =>
      match skip_ws rest with
      | EmptyString => Some v
      | _ => None
      end
  | None => None
  end.
End JsonText.

Definition json_text : JsonLib := {|
  json_dumps := JsonText.dumps;
  json_loads := JsonText.loads;
|}.

Module Pydantic.
Definition required_str (k : string) (d : list (string * json)) : option string :=
  match Json.get k d with
  | Some (JStr s) => Some s
  | _ => None
  end.

Definition optional_str (k : string) (d : list (string * json))
    : option (option string) :=
  match Json.get k d with
  | None | Some JNull => Some None
  | Some (JStr s) => Some (Some s)
  | Some _ => None
  end.

Definition int_or (k : string) (dflt : Z) (d : list (string * json)) : option Z :=
  match Json.get k d with
  | None => Some dflt
  | Some (JInt n) => Some n
  | Some _ => None
  end.

Fixpoint strs (l : list json) : option (list string) :=
  match l with
  | [] => Some []
  | JStr s :: l' => cons s <$> strs l'
  | _ => None
  end.

Fixpoint str_values (d : list (string * json)) : option (list (string * string)) :=
  match d with
  | [] => Some []
  | (k, JStr s) :: d' => cons (k, s) <$> str_values d'
  | _ => None
  end.

(** Validation of the fields of a page whose values have the types in
    which [model_dump] writes them; a missing field takes its default,
    [now] for [crawled_at]; fields that [Page] does not have are
    ignored. *)
Definition validate (now : string) (d : list (string * json)) : option Page.t :=
  url ← required_str "url" d;
  title ← optional_str "title" d;
  text ← optional_str "text" d;
  html ← optional_str "html" d;
  links ← match Json.get "links" d with
          | None => Some []
          | Some (JList l) => strs l
          | Some _ => None
          end;
  metadata ← match Json.get "metadata" d with
             | None => Some []
             | Some (JDict m) => str_values m
             | Some _ => None
             end;
  crawled_at ← match Json.get "crawled_at" d with
               | None => Some now
               | Some (JStr s) => Some s
               | Some _ => None
               end;
  status_code ← int_or "status_code" 200 d;
  depth ← int_or "depth" 0 d;
  Some (Page.mk url title text html links metadata crawled_at status_code depth).
End Pydantic.

Definition pydantic (now : string) : PydanticLib := {|
  Page_validate := Pydantic.validate now;
|}.

(** A web given by tables: what fetching a URL gives and what parsing a
    content gives; a URL that is not in the table fails to be fetched. *)
Definition table_web (site : list (string * (exn + (string * Z))))
    (documents : list (string * (exn + Parsed.t))) : Collaborators := {|
  fetch url :=
    default (inl (Raised "ClientError")) (snd <$> find (fun e => bool_decide (fst e = url)) site);
  parse content url :=
    default (inr (Parsed.mk None [] []))
      (snd <$> find (fun e => bool_decide (fst e = content)) documents);
  extract content url := inr (Some content);
|}.

(** ** A sample crawl

    A site of four pages in a chain, crawled twice over one checkpoint
    file: a first run with [max_depth = 5] that stops at its budget of
    three pages, and a resumed run with [max_depth = 2]. *)

Module Sample.
#[export] Instance urls : UrlLib := url_lib no_re.
#[export] Instance json : JsonLib := json_text.
Definition now : string := "2024-01-01T00:00:00".
#[export] Instance validation : PydanticLib := pydantic now.
Definition home : string := "https://example.com".

#[export] Instance web : Collaborators :=
  table_web
    [ (home, inr ("<0>", 200));
      ("https://example.com/1", inr ("<1>", 200));
      ("https://example.com/2", inr ("<2>", 200));
      ("https://example.com/3", inr ("<3>", 200));
      ("https://example.com/bad", inr ("<bad>", 200)) ]
    [ ("<0>", inr (Parsed.mk (Some "Home") ["https://example.com/1"] []));
      ("<1>", inr (Parsed.mk (Some "One") ["https://example.com/2"; home] []));
      ("<2>", inr (Parsed.mk (Some "Two") ["https://example.com/3"] []));
      ("<3>", inr (Parsed.mk (Some "Three") [] []));
      ("<bad>", inl (Raised "ParserError")) ].

Definition config_deep : CrawlConfig.t :=
  CrawlConfig.mk 5 3 1 true "yoink" 30 false true false.
Definition config_shallow : CrawlConfig.t :=
  CrawlConfig.mk 2 3 1 true "yoink" 30 false true false.

Definition first_crawler : Crawler.t LocalFileStorage.t :=
  Crawler.init (Some config_deep) None
    (Some (CheckpointManager.init LocalFileStorage.init 2)).

(** The first run: seed, one worker, final snapshot. *)
Definition first_run : option (Crawler.t LocalFileStorage.t) :=
  Crawler.crawl_end now <$>
    Crawler._worker (fun _ => now) 10
      (Eff.exec (Crawler.crawl_begin home false now) first_crawler).

(** The checkpoint file the first run leaves, opened anew. *)
Definition log_file : LocalFileStorage.t :=
  match first_run with
  | Some c =>
      match Crawler.checkpoint_manager c with
      | Some m =>
          LocalFileStorage.mk
            (LocalFileStorage.file (CheckpointManager.storage m)) None
      | None => LocalFileStorage.init
      end
  | None => LocalFileStorage.init
  end.


(** The file of the first run cut in the middle of its last line. *)
Definition truncated_log : LocalFileStorage.t :=
  let text := default EmptyString (LocalFileStorage.file log_file) in
  LocalFileStorage.mk (Some (String.substring 0 (String.length text - 60) text)) None.

Definition second_crawler : Crawler.t LocalFileStorage.t :=
  Crawler.init (Some config_shallow) None
    (Some (CheckpointManager.init log_file 2)).

(** The second run after [_resume_from_checkpoint]. *)
Definition resumed : Crawler.t LocalFileStorage.t :=
  Eff.exec (Crawler._resume_from_checkpoint home) second_crawler.

(** A scheduler with [max_depth = 2] seeded with the home page. *)
Definition seeded : Scheduler.t :=
  Scheduler.add (Scheduler.init 2 false None) home 0.

(** A crawler about to pop a URL whose content does not parse. *)
Definition failing_crawler : Crawler.t LocalFileStorage.t :=
  Crawler.mk config_deep
    (Scheduler.add (Scheduler.init 5 false None) "https://example.com/bad" 0)
    [] (Some (CheckpointManager.init LocalFileStorage.init 2)) [].

Definition snapshot_one : Snapshot.t :=
  Snapshot.mk {[home]} [("https://example.com/page0", 1)] ∅ now.
Definition snapshot_two : Snapshot.t :=
  Snapshot.mk {[home; "https://example.com/page0"]}
    [("https://example.com/page1", 1); ("https://example.com/page2", 2)]
    {["https://example.com/f.pdf"]} now.

Definition five_pages : list Page.t :=
  map (fun n : Z =>
         Page.mk ("https://example.com/page" +:+ JsonText.string_of_Z n)
           (Some ("Page " +:+ JsonText.string_of_Z n)) (Some "Content") None
           [] [] now 200 n)
      [0; 1; 2; 3; 4].
End Sample.

(** ** Further parts of the sources

    The parts below are used by the properties that go beyond the
    admission checks and the replay: draining the queue, the location of a
    storage, the bound on what a crash loses, the fetcher and the link
    extraction of the parser. *)

Module Frontier.
(** Up to [n] calls of [get], with the entries they return, in order. *)
Fixpoint drain (n : nat) (s : Scheduler.t) : list (string * Z) * Scheduler.t :=
  match n with
  | O => ([], s)
  | Datatypes.S n' =>
      match Scheduler.get s with
      | (Some item, s') =>
          let (items, s'') := drain n' s' in (item :: items, s'')
      | (None, s') => ([], s')
      end
  end.

Section Frontier.
Context `{UrlLib}.

(** The URLs waiting in the queue. *)
Definition queued (s : Scheduler.t) : list string := map fst (Scheduler.queue s).

(** No URL waits twice, every waiting URL is visited, the filter rejects
    no visited URL and every filtered one. *)
Definition consistent (s : Scheduler.t) : Prop :=
  NoDup (queued s)
  /\ (forall u, u ∈ queued s -> u ∈ Scheduler.visited s)
  /\ (forall u, u ∈ Scheduler.visited s -> ~ Scheduler.filter_rejects s u)
  /\ (forall u, u ∈ Scheduler.filtered s -> Scheduler.filter_rejects s u).

(** Every URL that reached the visited or the filtered set is of the
    start domain. *)
Definition in_scope (s : Scheduler.t) : Prop :=
  forall u, u ∈ Scheduler.visited s \/ u ∈ Scheduler.filtered s ->
    Some (netloc u) = Scheduler.start_domain s.
End Frontier.
End Frontier.

(** *** storage.py: where a checkpoint is kept *)

Module StorageUri.
(** [s.split(sep, 1)] for a one-character separator: the text before the
    first separator and, when there is one, the text after it. *)
Fixpoint split_once (sep : ascii) (s : string) : string * option string :=
  match s with
  | EmptyString => (EmptyString, None)
  | String c s' =>
      if decide (c = sep) then (EmptyString, Some s')
      else let (a, b) := split_once sep s' in (String c a, b)
  end.

(** [uri[n:]] *)
Fixpoint drop (n : nat) (s : string) : string :=
  match n, s with
  | O, _ => s
  | Datatypes.S n', String _ s' => drop n' s'
  | Datatypes.S _, EmptyString => EmptyString
  end.

(** [S3Storage._parse_uri]: the bucket and the key. *)
Definition _parse_uri (uri : string) : exn + (string * string) :=
  if negb (Py.startswith uri "s3://") then inl ValueError
  else
    match split_once "/" (drop 5 uri) with
    | (bucket, Some key) => inr (bucket, key)
    | (_, None) => inl ValueError
    end.

(** The backend that [StorageFactory.from_uri] builds. *)
Inductive backend :=
| Local (path : string)
| S3 (bucket key : string).

Definition from_uri (uri : string) : exn + backend :=
  if Py.startswith uri "s3://" then
    match _parse_uri uri with
    | inr (bucket, key) => inr (S3 bucket key)
    | inl e => inl e
    end
  else inr (Local uri).
End StorageUri.

(** *** checkpoint.py: what is written and not yet flushed *)

(** The writes after the last flush or close among the calls. *)
Fixpoint unflushed_go (acc : nat) (cs : list storage_call) : nat :=
  match cs with
  | [] => acc
  | CallWrite _ :: cs' => unflushed_go (Datatypes.S acc) cs'
  | _ :: cs' => unflushed_go O cs'
  end.

Definition unflushed (cs : list storage_call) : nat := unflushed_go O cs.

(** The calls of a crawl on its checkpoint manager. *)
Inductive manager_op :=
| WriteMetadata (start_url : string) (config : CrawlConfig.t) (now : string)
| WritePage (page : Page.t)
| WriteState (snap : Snapshot.t).

Section ManagerOps.
Context `{JsonLib} `{PydanticLib} {S : Type} `{CheckpointStorage S}.

Definition manager_step (m : CheckpointManager.t S) (o : manager_op)
    : CheckpointManager.t S :=
  match o with
  | WriteMetadata start_url config now =>
      CheckpointManager.write_metadata start_url config now m
  | WritePage page => Eff.exec (CheckpointManager.write_page page) m
  | WriteState snap =>
      CheckpointManager.write_state (Snapshot.visited snap) (Snapshot.queue snap)
        (Snapshot.filtered snap) (Snapshot.saved_at snap) m
  end.

Definition manager_run (m : CheckpointManager.t S) (ops : list manager_op)
    : CheckpointManager.t S :=
  fold_left manager_step ops m.
End ManagerOps.

(** What [load] returns on a log that continues another: the pages of
    both in order, and the metadata and the snapshot of the later one
    where it has them. *)
Definition loaded_after (earlier later : Loaded.t) : Loaded.t :=
  Loaded.mk
    (match Loaded.metadata later with Some md => Some md | None => Loaded.metadata earlier end)
    (Loaded.pages earlier ++ Loaded.pages later)
    (match Loaded.state later with Some st => Some st | None => Loaded.state earlier end).

(** *** crawler.py: the results against the frontier *)

Module Results.
(** No URL is waiting twice, crawled twice, or waiting and crawled; every
    such URL is visited; no entry of the queue and no page is deeper than
    the scheduler allows. *)
Definition agree (sch : Scheduler.t) (pages : list Page.t) : Prop :=
  NoDup (Frontier.queued sch ++ map Page.url pages)
  /\ (forall u, u ∈ Frontier.queued sch ++ map Page.url pages -> u ∈ Scheduler.visited sch)
  /\ Forall (fun item => item.2 <= Scheduler.max_depth sch) (Scheduler.queue sch)
  /\ Forall (fun page => Page.depth page <= Scheduler.max_depth sch) pages.

Definition consistent {S : Type} (c : Crawler.t S) : Prop :=
  agree (Crawler.scheduler c) (Crawler.pages c).
End Results.

(** *** fetcher.py *)

(** What one request of the session comes to. *)
Inductive response :=
| Responded (content : string) (status : Z)
| TimedOut
| ClientFailed (e : exn)
| Failed (e : exn).

(** What [fetch] does besides returning. *)
Inductive fetch_event :=
| Requested (url : string)
| Slept (seconds : Z)
| Logged (event : string).

Module Fetcher.
Record t := mk {
  user_agent : string;
  timeout : Z;
  max_retries : Z;
  _session : bool;
}.

(** [Fetcher(user_agent, timeout, max_retries)]: no session yet. *)
Definition init (user_agent : string) (timeout max_retries : Z) : t :=
  mk user_agent timeout max_retries false.

(** [Fetcher()] *)
Definition defaults : t := init "yoink/0.1.0" 30 3.

Definition __aenter__ (self : t) : t :=
  mk (user_agent self) (timeout self) (max_retries self) true.

Definition before (events : list fetch_event)
    (r : (exn + string * Z) * list fetch_event) : (exn + string * Z) * list fetch_event :=
  (fst r, events ++ snd r).

(** The turns of [for attempt in range(self.max_retries)] from [attempt]
    on, [left] of them; [network n] is what request number [n] of the
    call comes to. *)
Fixpoint attempts (self : t) (network : nat -> response) (url : string)
    (attempt left : nat) : (exn + string * Z) * list fetch_event :=
  match left with
  | O => (inl (Raised "RuntimeError: Unreachable code"), [])
  | Datatypes.S left' =>
      match network attempt with
      | Responded content status =>
          (inr (content, status), [Requested url; Logged "fetched_url"])
      | TimedOut =>
          if bool_decide (Z.of_nat attempt = max_retries self - 1)
          then (inl (Raised "TimeoutError"), [Requested url; Logged "timeout"])
          else before [Requested url; Logged "timeout"]
                 (attempts self network url (Datatypes.S attempt) left')
      | ClientFailed e =>
          if bool_decide (Z.of_nat attempt = max_retries self - 1)
          then (inl e, [Requested url; Logged "fetch_error"])
          else before [Requested url; Logged "fetch_error"; Slept (2 ^ Z.of_nat attempt)]
                 (attempts self network url (Datatypes.S attempt) left')
      | Failed e => (inl e, [Requested url])
      end
  end.

Definition fetch (self : t) (network : nat -> response) (url : string)
    : (exn + string * Z) * list fetch_event :=
  if negb (_session self)
  then (inl (Raised "RuntimeError: Fetcher must be used as async context manager"), [])
  else attempts self network url O (Z.to_nat (max_retries self)).

(** The requests and the seconds slept among the events. *)
Fixpoint requests (events : list fetch_event) : nat :=
  match events with
  | [] => O
  | Requested _ :: events' => Datatypes.S (requests events')
  | _ :: events' => requests events'
  end.

Fixpoint slept (events : list fetch_event) : Z :=
  match events with
  | [] => 0
  | Slept seconds :: events' => seconds + slept events'
  | _ :: events' => slept events'
  end.

(** The exception that a request which does not complete raises. *)
Definition raises (r : response) : exn :=
  match r with
  | TimedOut => Raised "TimeoutError"
  | ClientFailed e | Failed e => e
  | Responded _ _ => Raised "no exception"
  end.

(** A request that the loop answers with another one. *)
Definition retried (r : response) : Prop :=
  match r with
  | TimedOut | ClientFailed _ => True
  | _ => False
  end.
End Fetcher.

(** *** parser.py: the links of a page *)

Class LinkLib := {
  (** [urljoin(base, href)] *)
  urljoin : string -> string -> string;
  (** [urlparse(url).scheme] *)
  scheme : string -> string;
}.

Module Parser.
Section Parser.
Context `{LinkLib}.

(** [url.split("#")[0]] *)
Fixpoint before_fragment (url : string) : string :=
  match url with
  | EmptyString => EmptyString
  | String c url' =>
      if decide (c = "#"%char) then EmptyString else String c (before_fragment url')
  end.

(** One turn of the loop of [_extract_links] over the anchors; the state
    is [links] and [seen]. *)
Definition link_step (base_url : string) (state : list string * gset string)
    (href : string) : list string * gset string :=
  let absolute_url := before_fragment (urljoin base_url href) in
  if negb (bool_decide (scheme absolute_url = "http")
           || bool_decide (scheme absolute_url = "https"))
  then state
  else if bool_decide (absolute_url ∈ state.2) then state
  else (state.1 ++ [absolute_url], state.2 ∪ {[absolute_url]}).

(** [_extract_links], on the [href] attributes of the anchors of the
    document that have one, in document order. *)
Definition _extract_links (hrefs : list string) (base_url : string) : list string :=
  (fold_left (link_step base_url) hrefs ([], ∅)).1.
End Parser.
End Parser.

(** The normalisation of an anchor by [_extract_links]. *)
Definition absolute `{LinkLib} (base_url href : string) : string :=
  Parser.before_fragment (urljoin base_url href).

(** What the loop of [_extract_links] holds once it has passed the anchors
    [processed]: the links are pairwise distinct, [seen] holds exactly the
    links, the links are the web addresses among the normalised anchors,
    and they stand in the order of the anchors. *)
Definition collected `{LinkLib} (base_url : string) (processed : list string)
    (state : list string * gset string) : Prop :=
  NoDup state.1
  /\ (forall u, u ∈ state.2 <-> u ∈ state.1)
  /\ (forall u, u ∈ state.1 <->
        (scheme u = "http" \/ scheme u = "https")
        /\ exists href, href ∈ processed /\ u = absolute base_url href)
  /\ sublist state.1 (map (absolute base_url) processed).

(** *** Sample inputs of the further properties *)

Module Runs.
Import Sample.

(** The first crawler with its start URL seeded, and after its worker. *)
Definition started : Crawler.t LocalFileStorage.t :=
  Eff.exec (Crawler.crawl_begin home false now) first_crawler.

Definition worked : Crawler.t LocalFileStorage.t :=
  default started (Crawler._worker (fun _ => now) 10 started).

(** A crawl of a URL that the sample site does not serve. *)
Definition lost : Crawler.t LocalFileStorage.t :=
  Eff.exec (Crawler.crawl_begin "https://example.com/missing" false now) first_crawler.

(** A frontier after some calls, without external links. *)
Definition frontier : Scheduler.t :=
  Scheduler.run (Scheduler.init 2 false None)
    [Scheduler.Add home 0; Scheduler.Get; Scheduler.Add "https://example.com/a" 1;
     Scheduler.Add "https://other.org/b" 1].

(** A network that times out, refuses and then answers. *)
Definition flaky (n : nat) : response :=
  match n with
  | O => TimedOut
  | Datatypes.S O => ClientFailed (Raised "ClientConnectorError")
  | _ => Responded "<html></html>" 200
  end.

(** A network that never answers. *)
Definition down (n : nat) : response :=
  match n with
  | Datatypes.S O => TimedOut
  | _ => ClientFailed (Raised "ClientConnectorError")
  end.
End Runs.

(** * Properties *)

(** Unfolding of the operations of [Eff]. *)
Ltac eff_unfold :=
  unfold Eff.exec, Eff.bind, Eff.when, Eff.gets, Eff.modify, Eff.exit,
    Eff.ret, Eff.lift in *.

(** ** The admission checks of the frontier *)

Section SchedulerFacts.
Context `{UrlLib}.
Implicit Types (s : Scheduler.t) (url : string) (depth : Z).

Lemma anchored_start_domain s url :
  Scheduler.start_domain (Scheduler.anchored s url)
  = Some (default (netloc url) (Scheduler.start_domain s)).
Proof.
  unfold Scheduler.anchored.
  destruct (Scheduler.start_domain s) eqn:E; simpl; [by rewrite E | done].
Qed.

Lemma anchored_frame s url :
  Scheduler.queue (Scheduler.anchored s url) = Scheduler.queue s
  /\ Scheduler.visited (Scheduler.anchored s url) = Scheduler.visited s
  /\ Scheduler.filtered (Scheduler.anchored s url) = Scheduler.filtered s
  /\ Scheduler.max_depth (Scheduler.anchored s url) = Scheduler.max_depth s
  /\ Scheduler.follow_external (Scheduler.anchored s url) = Scheduler.follow_external s
  /\ Scheduler.url_filter (Scheduler.anchored s url) = Scheduler.url_filter s.
Proof. unfold Scheduler.anchored. by destruct (Scheduler.start_domain s). Qed.

Lemma anchored_set s url d :
  Scheduler.start_domain s = Some d -> Scheduler.anchored s url = s.
Proof. unfold Scheduler.anchored. by intros ->. Qed.

(** [add] as one case analysis, in the order of its checks. *)
Lemma add_cases s url depth :
  Scheduler.add s url depth =
    let s1 := Scheduler.anchored s url in
    if bool_decide (url ∈ Scheduler.visited s) then s1
    else if bool_decide (depth > Scheduler.max_depth s) then s1
    else if negb (Scheduler.follow_external s)
            && bool_decide (Some (netloc url) <> Scheduler.start_domain s1) then s1
    else if match Scheduler.url_filter s with
            | Some f => negb (CombinedFilter.should_crawl f url)
            | None => false
            end
    then Scheduler.set_filtered (Scheduler.filtered s ∪ {[url]}) s1
    else Scheduler.set_queue (Scheduler.queue s ++ [(url, depth)])
           (Scheduler.set_visited (Scheduler.visited s ∪ {[url]}) s1).
Proof.
  unfold Scheduler.add, Scheduler.add_body, Scheduler.anchored.
  eff_unfold.
  destruct s as [md fe uf q v f sd]; simpl.
  destruct sd as [d|], fe, uf as [flt|]; simpl;
    repeat (case_bool_decide; simpl; try done);
    try (destruct (CombinedFilter.should_crawl flt url); simpl; done).
Qed.
Lemma out_of_scope_decide s url :
  negb (Scheduler.follow_external s)
  && bool_decide (Some (netloc url)
                  <> Scheduler.start_domain (Scheduler.anchored s url)) = true
  <-> Scheduler.out_of_scope s url.
Proof.
  unfold Scheduler.out_of_scope.
  rewrite andb_true_iff, negb_true_iff, bool_decide_eq_true. tauto.
Qed.

Lemma filter_rejects_decide s url :
  match Scheduler.url_filter s with
  | Some f => negb (CombinedFilter.should_crawl f url)
  | None => false
  end = true
  <-> Scheduler.filter_rejects s url.
Proof.
  unfold Scheduler.filter_rejects.
  destruct (Scheduler.url_filter s) as [f|]; split.
  - intros E%negb_true_iff. eauto.
  - intros (g & [= <-] & E). by rewrite E.
  - done.
  - by intros (g & ? & _).
Qed.

(** How [add] ends in each of its cases. *)
Lemma add_visited s url depth :
  url ∈ Scheduler.visited s ->
  Scheduler.add s url depth = Scheduler.anchored s url.
Proof. intros Hv. rewrite add_cases. simpl. by rewrite bool_decide_eq_true_2. Qed.

Lemma add_too_deep s url depth :
  depth > Scheduler.max_depth s ->
  Scheduler.add s url depth = Scheduler.anchored s url.
Proof.
  intros Hd. rewrite add_cases. simpl. case_bool_decide; [done|].
  by rewrite (bool_decide_eq_true_2 _ Hd).
Qed.

Lemma add_out_of_scope s url depth :
  Scheduler.out_of_scope s url ->
  Scheduler.add s url depth = Scheduler.anchored s url.
Proof.
  intros Hs%out_of_scope_decide. rewrite add_cases. simpl.
  destruct (bool_decide (url ∈ _)); [done|].
  destruct (bool_decide (depth > _)); [done|].
  by rewrite Hs.
Qed.


Lemma add_admitted s url depth :
  Scheduler.admissible s url depth ->
  Scheduler.add s url depth
  = Scheduler.set_queue (Scheduler.queue s ++ [(url, depth)])
      (Scheduler.set_visited (Scheduler.visited s ∪ {[url]})
         (Scheduler.anchored s url)).
Proof.
  intros (Hv & Hd & Hs & Hf). rewrite add_cases. simpl.
  rewrite (bool_decide_eq_false_2 _ Hv).
  rewrite bool_decide_eq_false_2 by lia.
  destruct (_ && _) eqn:E; [by apply out_of_scope_decide in E|].
  destruct (match Scheduler.url_filter s with Some _ => _ | None => _ end) eqn:F;
    [by apply filter_rejects_decide in F | done].
Qed.

(** What every call of [add] keeps. *)
Lemma add_config s url depth :
  Scheduler.max_depth (Scheduler.add s url depth) = Scheduler.max_depth s
  /\ Scheduler.follow_external (Scheduler.add s url depth) = Scheduler.follow_external s
  /\ Scheduler.url_filter (Scheduler.add s url depth) = Scheduler.url_filter s
  /\ Scheduler.start_domain (Scheduler.add s url depth)
     = Some (default (netloc url) (Scheduler.start_domain s)).
Proof.
  pose proof (anchored_frame s url) as (_ & _ & _ & ? & ? & ?).
  pose proof (anchored_start_domain s url).
  rewrite add_cases. simpl.
  repeat (match goal with |- context [if ?b then _ else _] => destruct b end); done.
Qed.

Lemma add_visited_cases s url depth :
  Scheduler.visited (Scheduler.add s url depth) = Scheduler.visited s
  \/ ((url ∉ Scheduler.visited s)
      /\ Scheduler.visited (Scheduler.add s url depth) = Scheduler.visited s ∪ {[url]}).
Proof.
  pose proof (anchored_frame s url) as (_ & Hv & _).
  rewrite add_cases. simpl.
  case_bool_decide; [by left|].
  repeat (match goal with |- context [if ?b then _ else _] => destruct b end);
    simpl; auto.
Qed.

Lemma step_visited_mono s o :
  Scheduler.visited s ⊆ Scheduler.visited (Scheduler.step s o).
Proof.
  destruct o as [url depth|]; simpl.
  - destruct (add_visited_cases s url depth) as [-> | [_ ->]]; set_solver.
  - unfold Scheduler.get. by destruct (Scheduler.queue s).
Qed.

Lemma step_start_domain s o d :
  Scheduler.start_domain s = Some d ->
  Scheduler.start_domain (Scheduler.step s o) = Some d.
Proof.
  intros E. destruct o as [url depth|]; simpl.
  - pose proof (add_config s url depth) as (_ & _ & _ & ->). by rewrite E.
  - unfold Scheduler.get. by destruct (Scheduler.queue s).
Qed.

Lemma run_visited_mono s ops :
  Scheduler.visited s ⊆ Scheduler.visited (Scheduler.run s ops).
Proof.
  revert s. induction ops as [|o ops IH]; intros s; simpl; [done|].
  etrans; [apply (step_visited_mono s o) | apply IH].
Qed.

Lemma run_start_domain s ops d :
  Scheduler.start_domain s = Some d ->
  Scheduler.start_domain (Scheduler.run s ops) = Some d.
Proof.
  revert s. induction ops as [|o ops IH]; intros s E; simpl; [done|].
  apply IH. by apply step_start_domain.
Qed.

(** C10. When [add] rejects a candidate because it is visited, too deep
    or out of scope, the queue, the visited set and the filtered set stay
    as they were, as do the bounds and the filter; the start domain is
    the one thing that may have been set.  A URL rejected only for its
    depth is therefore not visited, and a later call for it at a depth
    that passes the checks admits it. *)
Theorem add_rejection_frame s url depth :
  url ∈ Scheduler.visited s \/ depth > Scheduler.max_depth s
    \/ Scheduler.out_of_scope s url ->
  let s' := Scheduler.add s url depth in
  (Scheduler.queue s' = Scheduler.queue s
   /\ Scheduler.visited s' = Scheduler.visited s
   /\ Scheduler.filtered s' = Scheduler.filtered s
   /\ Scheduler.max_depth s' = Scheduler.max_depth s
   /\ Scheduler.follow_external s' = Scheduler.follow_external s
   /\ Scheduler.url_filter s' = Scheduler.url_filter s
   /\ Scheduler.start_domain s'
      = Some (default (netloc url) (Scheduler.start_domain s)))
  /\ ((url ∉ Scheduler.visited s) ->
      forall depth', depth' <= Scheduler.max_depth s ->
        ~ Scheduler.out_of_scope s url -> ~ Scheduler.filter_rejects s url ->
        let s'' := Scheduler.add s' url depth' in
        url ∈ Scheduler.visited s''
        /\ Scheduler.queue s'' = Scheduler.queue s ++ [(url, depth')]).
Proof.
  intros Hrej s'.
  assert (s' = Scheduler.anchored s url) as Hs'.
  { destruct Hrej as [? | [? | ?]];
      [by apply add_visited | by apply add_too_deep | by apply add_out_of_scope]. }
  pose proof (anchored_frame s url) as (Hq & Hv & Hf & Hm & He & Hu).
  pose proof (anchored_start_domain s url) as Hsd.
  rewrite <- Hs' in *. split; [done|].
  intros Hnv depth' Hd' Hscope Hfilter s''.
  assert (Scheduler.anchored s' url = s') as Ha
    by (by eapply anchored_set).
  assert (Scheduler.admissible s' url depth') as Hadm.
  { unfold Scheduler.admissible, Scheduler.out_of_scope, Scheduler.filter_rejects in *.
    rewrite <- Hs' in Hscope. rewrite Hv, Hm, He, Hu, Ha. auto. }
  subst s''. rewrite (add_admitted _ _ _ Hadm), Ha. simpl.
  rewrite Hq. split; [set_solver | done].
Qed.

(** C2. Once a call [add s u d] has [u] in the visited set, every later
    call [add] for [u], at any depth and after any further calls of [add]
    and [get], leaves the scheduler as it is, so also its queue, visited
    set and filtered set.  Over any sequence of calls the visited set
    gains only URLs passed to [add], at most one element for each
    distinct one. *)
Theorem add_admits_once s u d ops d' :
  u ∈ Scheduler.visited (Scheduler.add s u d) ->
  let s2 := Scheduler.run (Scheduler.add s u d) ops in
  Scheduler.add s2 u d' = s2
  /\ (forall (s0 : Scheduler.t) (calls : list (string * Z)),
       let after := Scheduler.run s0 (map (fun c => Scheduler.Add c.1 c.2) calls) in
       let urls : gset string := list_to_set (map fst calls) in
       Scheduler.visited after ⊆ Scheduler.visited s0 ∪ urls
       /\ (base.size (Scheduler.visited after)
           <= base.size (Scheduler.visited s0) + base.size urls)%nat).
Proof.
  intros Hin s2. split.
  - pose proof (add_config s u d) as (_ & _ & _ & Hsd).
    pose proof (run_start_domain _ ops _ Hsd) as Hsd2.
    pose proof (run_visited_mono (Scheduler.add s u d) ops) as Hmono.
    subst s2. rewrite add_visited by set_solver.
    by eapply anchored_set.
  - intros s0 calls after urls.
    assert (Scheduler.visited after ⊆ Scheduler.visited s0 ∪ urls) as Hsub.
    { subst after urls. revert s0.
      induction calls as [|[url depth] calls IH]; intros s0; simpl; [set_solver|].
      etrans; [apply IH|].
      destruct (add_visited_cases s0 url depth) as [-> | [_ ->]]; set_solver. }
    split; [done|].
    etrans; [apply subseteq_size, Hsub|].
    rewrite size_union_alt. apply Nat.add_le_mono_l, subseteq_size. set_solver.
Qed.
Lemma add_queue_cases s url depth :
  Scheduler.queue (Scheduler.add s url depth) = Scheduler.queue s
  \/ (depth <= Scheduler.max_depth s
      /\ Scheduler.queue (Scheduler.add s url depth)
         = Scheduler.queue s ++ [(url, depth)]).
Proof.
  pose proof (anchored_frame s url) as (Hq & _).
  rewrite add_cases. simpl.
  destruct (bool_decide (url ∈ _)); [by left|].
  destruct (decide (depth > Scheduler.max_depth s)) as [Hd|Hd];
    [by rewrite (bool_decide_eq_true_2 _ Hd); left|].
  rewrite (bool_decide_eq_false_2 _ Hd).
  repeat (match goal with |- context [if ?b then _ else _] => destruct b end);
    simpl; rewrite ?Hq; auto.
Qed.

Lemma step_max_depth s o :
  Scheduler.max_depth (Scheduler.step s o) = Scheduler.max_depth s.
Proof.
  destruct o as [url depth|]; simpl.
  - apply add_config.
  - unfold Scheduler.get. by destruct (Scheduler.queue s).
Qed.

Lemma step_queue_bound s o (limit : Z) :
  Scheduler.max_depth s = limit ->
  Forall (fun item => item.2 <= limit) (Scheduler.queue s) ->
  Forall (fun item => item.2 <= limit) (Scheduler.queue (Scheduler.step s o)).
Proof.
  intros <- Hall. destruct o as [url depth|]; simpl.
  - destruct (add_queue_cases s url depth) as [E | [Hd E]];
      rewrite E; [exact Hall|].
    apply Forall_app. split; [exact Hall|]. constructor; [exact Hd | constructor].
  - unfold Scheduler.get.
    destruct (Scheduler.queue s) as [|item rest] eqn:E; simpl; [by rewrite E|].
    by inversion Hall.
Qed.

(** C5, as amended.  [add] leaves the queue as it is for a candidate
    deeper than [max_depth] and appends a candidate at [max_depth] that
    passes the other checks; [get] only removes entries.  So a queue
    whose entries are within [max_depth], the empty one of a new
    scheduler among them, stays so under every sequence of [add] and
    [get].  With [max_depth = 2] a candidate at depth 3 is rejected and
    one at depth 2 that passes the other checks is enqueued. *)
Theorem queue_within_max_depth s ops :
  Forall (fun item => item.2 <= Scheduler.max_depth s) (Scheduler.queue s) ->
  Forall (fun item => item.2 <= Scheduler.max_depth s)
    (Scheduler.queue (Scheduler.run s ops))
  /\ (forall url depth, depth > Scheduler.max_depth s ->
        Scheduler.queue (Scheduler.add s url depth) = Scheduler.queue s)
  /\ (forall url, Scheduler.admissible s url (Scheduler.max_depth s) ->
        Scheduler.queue (Scheduler.add s url (Scheduler.max_depth s))
        = Scheduler.queue s ++ [(url, Scheduler.max_depth s)])
  /\ (Scheduler.max_depth s = 2 ->
      forall url,
        Scheduler.queue (Scheduler.add s url 3) = Scheduler.queue s
        /\ (Scheduler.admissible s url 2 ->
            Scheduler.queue (Scheduler.add s url 2) = Scheduler.queue s ++ [(url, 2)])).
Proof.
  intros Hall.
  assert (forall url depth, depth > Scheduler.max_depth s ->
            Scheduler.queue (Scheduler.add s url depth) = Scheduler.queue s) as Hdeep.
  { intros url depth Hd. rewrite add_too_deep by done. apply anchored_frame. }
  assert (forall url depth, Scheduler.admissible s url depth ->
            Scheduler.queue (Scheduler.add s url depth)
            = Scheduler.queue s ++ [(url, depth)]) as Hadm.
  { intros url depth Ha. by rewrite add_admitted. }
  split; [|split; [done|split; [auto|]]].
  - remember (Scheduler.max_depth s) as limit eqn:Hlim. symmetry in Hlim.
    clear Hdeep Hadm. revert s Hlim Hall.
    induction ops as [|o ops IH]; intros s Hlim Hall; simpl; [done|].
    apply IH; [by rewrite step_max_depth | by apply step_queue_bound].
  - intros H2 url. split; [apply Hdeep; lia | apply Hadm].
Qed.
End SchedulerFacts.

(** *** The admission checks on the sample scheduler *)

Section SchedulerSamples.
Import Sample.

(** A candidate at depth 3 under [max_depth = 2] leaves the seeded
    scheduler as it is, and is enqueued when it comes again at depth 2. *)
Lemma add_rejection_frame_sample :
  let s' := Scheduler.add seeded "https://example.com/deep" 3 in
  (Scheduler.queue s' = Scheduler.queue seeded
   /\ Scheduler.visited s' = Scheduler.visited seeded
   /\ Scheduler.filtered s' = Scheduler.filtered seeded)
  /\ Scheduler.queue (Scheduler.add s' "https://example.com/deep" 2)
     = [(home, 0); ("https://example.com/deep", 2)].
Proof.
  assert ("https://example.com/deep" ∈ Scheduler.visited seeded
          \/ 3 > Scheduler.max_depth seeded
          \/ Scheduler.out_of_scope seeded "https://example.com/deep") as Hrej
    by (right; left; reflexivity).
  destruct (add_rejection_frame seeded "https://example.com/deep" 3 Hrej)
    as ((Hq & Hv & Hf & _) & Hlater).
  split; [done|].
  apply Hlater.
  - vm_compute. intros [=].
  - vm_compute. intros [=].
  - vm_compute. intros [_ Hne]. by apply Hne.
  - vm_compute. by intros (f & [=] & _).
Defined.

(** The home page, admitted by the seed, is not admitted again. *)
Lemma add_admits_once_sample :
  Scheduler.add (Scheduler.run seeded [Scheduler.Get; Scheduler.Add "https://example.com/1" 1])
    home 2
  = Scheduler.run seeded [Scheduler.Get; Scheduler.Add "https://example.com/1" 1].
Proof.
  refine (proj1 (add_admits_once (Scheduler.init 2 false None) home 0
                   [Scheduler.Get; Scheduler.Add "https://example.com/1" 1] 2 _)).
  vm_compute. reflexivity.
Defined.

(** The seed, a candidate at depth 2, one at depth 3 and a pop leave a
    queue within [max_depth = 2]. *)
Lemma queue_within_max_depth_sample :
  Forall (fun item => item.2 <= 2)
    (Scheduler.queue
       (Scheduler.run (Scheduler.init 2 false None)
          [Scheduler.Add home 0; Scheduler.Add "https://example.com/page1" 2;
           Scheduler.Add "https://example.com/page2" 3; Scheduler.Get])).
Proof.
  refine (proj1 (queue_within_max_depth (Scheduler.init 2 false None) _ _)).
  simpl. constructor.
Defined.
End SchedulerSamples.

(** C5, the counterexample.  The first sample run, with [max_depth = 5],
    leaves [("https://example.com/3", 3)] in the queue of its final
    snapshot; the run resumed with [max_depth = 2] appends the entries of
    the snapshot to its queue without passing them through [add], so its
    queue holds an entry deeper than its [max_depth]. *)
Lemma resume_restores_deeper_entry :
  Scheduler.max_depth (Crawler.scheduler Sample.resumed) = 2
  /\ Scheduler.queue (Crawler.scheduler Sample.resumed) = [("https://example.com/3", 3)]
  /\ ~ Forall (fun item => item.2 <= Scheduler.max_depth (Crawler.scheduler Sample.resumed))
         (Scheduler.queue (Crawler.scheduler Sample.resumed)).
Proof.
  assert (Scheduler.max_depth (Crawler.scheduler Sample.resumed) = 2) as Hm
    by (vm_compute; reflexivity).
  assert (Scheduler.queue (Crawler.scheduler Sample.resumed)
          = [("https://example.com/3", 3)]) as Hq
    by (vm_compute; reflexivity).
  split; [done|]. split; [done|].
  rewrite Hm, Hq. intros Hall. inversion Hall as [|? ? Hle _]. simpl in Hle. lia.
Qed.

(** ** The URL filter *)

Section GlobFacts.
Implicit Types (name rest : string).

Lemma append_cons (c : ascii) (a b : string) : String c a +:+ b = String c (a +:+ b).
Proof. reflexivity. Qed.

Lemma append_nil_l (b : string) : EmptyString +:+ b = b.
Proof. reflexivity. Qed.

Lemma append_assoc (a b c : string) : (a +:+ b) +:+ c = a +:+ (b +:+ c).
Proof. induction a as [|x a IH]; [done|]. by rewrite !append_cons, IH. Qed.

(** A pattern that ends in a star matches every continuation. *)
Lemma matches_star_any name : Glob.matches "*" name = true.
Proof.
  induction name as [|c name IH]; [done|].
  simpl in *. exact IH.
Qed.

(** A star at the head of a pattern skips any prefix of the name. *)
Lemma matches_star_skip (pattern : string) (skipped rest : string) :
  Glob.matches pattern rest = true ->
  Glob.matches (String "*" pattern) (skipped +:+ rest) = true.
Proof.
  intros Hrest. induction skipped as [|c skipped IH].
  - rewrite append_nil_l. destruct rest; simpl; by rewrite Hrest.
  - rewrite append_cons. simpl in *. rewrite IH. apply orb_true_r.
Qed.

Lemma matches_private (before after : string) :
  Glob.matches "*/private/*" (before +:+ "/blog/private/" +:+ after) = true.
Proof.
  change "/blog/private/" with ("/blog" +:+ "/private/").
  rewrite (append_assoc "/blog"), <- (append_assoc before).
  apply matches_star_skip.
  rewrite !append_cons, append_nil_l.
  change (Glob.matches "*" after = true). apply matches_star_any.
Qed.
End GlobFacts.

Section FilterFacts.
Context `{UrlLib}.

Lemma exclude_match_rejects (f : URLFilter.t) (url pattern : string) :
  In pattern (URLFilter.exclude_patterns f) ->
  URLFilter._match_pattern url pattern = true ->
  URLFilter.should_crawl f url = false.
Proof.
  intros Hin Hm. unfold URLFilter.should_crawl.
  destruct (_ && _); [done|]. destruct (_ && _); [done|].
  assert (existsb (URLFilter._match_pattern url) (URLFilter.exclude_patterns f) = true)
    as -> by (apply existsb_exists; eauto).
  by destruct (URLFilter.exclude_patterns f).
Qed.
End FilterFacts.

(** C9. A URL that matches one of the exclude patterns of a [URLFilter] is
    rejected by [should_crawl], whatever its include patterns are and
    whether the URL matches them.  With include [*/blog/*] and exclude
    [*/private/*], every URL that contains [/blog/private/] is rejected,
    by the filter and by a combined filter built from the same
    configuration. *)
Theorem exclude_overrides_include :
  (forall (L : UrlLib) (f : URLFilter.t) (url pattern : string),
      In pattern (URLFilter.exclude_patterns f) ->
      URLFilter._match_pattern url pattern = true ->
      URLFilter.should_crawl f url = false)
  /\ (forall (re : string -> string -> option bool) (before after : string),
        let L := url_lib re in
        let url := before +:+ "/blog/private/" +:+ after in
        URLFilter.should_crawl
          (URLFilter.init (Some ["*/blog/*"]) (Some ["*/private/*"]) None) url = false
        /\ CombinedFilter.should_crawl
             (CombinedFilter.from_config (Some ["*/blog/*"]) (Some ["*/private/*"]) None None)
             url = false).
Proof.
  split; [intros L; apply exclude_match_rejects|].
  intros re before after L url.
  assert (URLFilter.should_crawl
            (URLFilter.init (Some ["*/blog/*"]) (Some ["*/private/*"]) None) url = false) as Hf.
  { apply (exclude_match_rejects _ url "*/private/*"); [by left|].
    unfold URLFilter._match_pattern. simpl. apply matches_private. }
  split; [done|].
  unfold CombinedFilter.should_crawl, CombinedFilter.from_config. simpl.
  by rewrite Hf.
Qed.

(** ** The checkpoint manager: when it flushes *)

Section FlushFacts.
Context `{JsonLib} `{PydanticLib} {S : Type} `{CheckpointStorage S}.
Implicit Types (m : CheckpointManager.t S) (page : Page.t).


Lemma write_page_calls m page :
  CheckpointManager.flush_interval m <> 0 ->
  let m' := Eff.exec (CheckpointManager.write_page page) m in
  CheckpointManager.write_page page m = (m', inr tt)
  /\ CheckpointManager._page_count m' = CheckpointManager._page_count m + 1
  /\ CheckpointManager.flush_interval m' = CheckpointManager.flush_interval m
  /\ CheckpointManager.calls m'
     = CheckpointManager.calls m
       ++ CallWrite (CheckpointManager.line_of (CheckpointManager.page_record page))
          :: flush_due (CheckpointManager.flush_interval m)
               (CheckpointManager._page_count m + 1).
Proof.
  intros Hk m'. subst m'.
  unfold Eff.exec, flush_due, CheckpointManager.write_page, CheckpointManager.py_mod.
  eff_unfold. simpl. destruct (decide (_ = 0)) as [|_]; [done|]. simpl.
  case_bool_decide; simpl; rewrite <- ?app_assoc; done.
Qed.




End FlushFacts.

(** ** The checkpoint manager: replay of the log *)

Section LoadFacts.
Context `{JsonLib} `{PydanticLib} {S : Type} `{CheckpointStorage S}.
Implicit Types (m : CheckpointManager.t S) (line : string) (acc : Loaded.t).

(** One turn of the loop of [load] replays the record of the line, if the
    line holds one. *)
Lemma load_line_replay acc line :
  CheckpointManager.load_line acc line
  = match CheckpointManager.record_of_line line with
    | Some entry => CheckpointManager.replay_entry acc entry
    | None => acc
    end.
Proof.
  unfold CheckpointManager.load_line, CheckpointManager.record_of_line.
  case_bool_decide; [done|].
  destruct (json_loads (Py.strip line)) as [[| | | | | |d]|]; try done.
  destruct (Json.get "type" d) as [[| | | |tag| |]|]; try done.
  simpl.
  destruct (bool_decide (tag = "metadata")); [done|].
  destruct (bool_decide (tag = "page")); [by destruct (Page_validate _)|].
  by destruct (bool_decide (tag = "state")).
Qed.


Lemma fold_load_line_replay (lines : list string) acc :
  fold_left CheckpointManager.load_line lines acc
  = fold_left CheckpointManager.replay_entry
      (omap CheckpointManager.record_of_line lines) acc.
Proof.
  revert acc. induction lines as [|line lines IH]; intros acc; simpl; [done|].
  rewrite IH, load_line_replay.
  by destruct (CheckpointManager.record_of_line line).
Qed.

(** The replay keeps the pages in order, the latest metadata and the
    latest snapshot. *)
Lemma replay_entry_pages (entries : list LogEntry.t) acc :
  Loaded.pages (fold_left CheckpointManager.replay_entry entries acc)
  = Loaded.pages acc
    ++ omap (fun e => match e with LogEntry.PageRecord p => Some p | _ => None end) entries.
Proof.
  revert acc. induction entries as [|e entries IH]; intros acc; simpl.
  - by rewrite app_nil_r.
  - rewrite IH. destruct e; simpl; [done | by rewrite <- app_assoc | done].
Qed.


Lemma replay_entry_metadata_kept (entries : list LogEntry.t) acc :
  Forall (fun e => forall d, e <> LogEntry.Metadata d) entries ->
  Loaded.metadata (fold_left CheckpointManager.replay_entry entries acc)
  = Loaded.metadata acc.
Proof.
  revert acc. induction entries as [|e entries IH]; intros acc Hall; simpl; [done|].
  inversion Hall as [|? ? He Hrest]; subst. rewrite IH by done.
  destruct e as [d| |]; simpl; try done. by destruct (He d).
Qed.

End LoadFacts.

(** ** The storage backends *)

Section TextFacts.
Implicit Types (l rest cur : string) (breaks : ascii -> bool).

Lemma append_nil_r (a : string) : a +:+ EmptyString = a.
Proof. induction a as [|c a IH]; [done|]. by rewrite append_cons, IH. Qed.

Lemma join_app (a b : list string) :
  TextIO.join (a ++ b) = TextIO.join a +:+ TextIO.join b.
Proof.
  induction a as [|x a IH]; simpl; [done|]. by rewrite IH, append_assoc.
Qed.

Lemma plain_head (c : ascii) l :
  TextIO.plain (String c l) = true ->
  (32 <= nat_of_ascii c)%nat /\ TextIO.plain l = true.
Proof.
  change (TextIO.plain (String c l))
    with (Nat.leb 32 (nat_of_ascii c) && Nat.leb (nat_of_ascii c) 126 && TextIO.plain l).
  intros ((Hlo%Nat.leb_le & _)%andb_true_iff & Hl)%andb_true_iff. done.
Qed.

(** A plain line and its line feed come out as one line. *)
Lemma split_go_line breaks (universal : bool) l cur rest :
  (forall c, breaks c = true -> (nat_of_ascii c < 32)%nat) ->
  breaks TextIO.LF = true ->
  TextIO.plain l = true ->
  TextIO.split_go breaks universal cur (l +:+ String TextIO.LF rest)
  = String.rev_app cur (l +:+ String TextIO.LF EmptyString)
    :: TextIO.split_go breaks universal EmptyString rest.
Proof.
  intros Hlow Hlf. revert cur. induction l as [|c l IH]; intros cur Hplain.
  - rewrite !append_nil_l. simpl.
    destruct (decide (TextIO.LF = TextIO.CR)) as [[=]|_]. by rewrite Hlf.
  - apply plain_head in Hplain as [Hc Hl].
    rewrite !append_cons. simpl.
    destruct (decide (c = TextIO.CR)) as [->|_]; [vm_compute in Hc; lia|].
    destruct (breaks c) eqn:Hb; [apply Hlow in Hb; lia|].
    by rewrite IH.
Qed.

Lemma split_go_lines breaks (universal : bool) (ls : list string) :
  (forall c, breaks c = true -> (nat_of_ascii c < 32)%nat) ->
  breaks TextIO.LF = true ->
  Forall (fun l => TextIO.plain l = true) ls ->
  TextIO.split_go breaks universal EmptyString
    (TextIO.join (map (fun l => l +:+ String TextIO.LF EmptyString) ls))
  = map (fun l => l +:+ String TextIO.LF EmptyString) ls.
Proof.
  intros Hlow Hlf Hall. induction Hall as [|l ls Hl _ IH]; simpl; [done|].
  rewrite append_assoc, append_cons, append_nil_l.
  rewrite split_go_line by done. simpl. by rewrite IH.
Qed.
End TextFacts.

Section LocalFileStorageFacts.
Implicit Types (s : LocalFileStorage.t) (d : string).

Lemma local_durable_write d s :
  default EmptyString (LocalFileStorage.file (write d s))
  = default EmptyString (LocalFileStorage.file s).
Proof. simpl. unfold LocalFileStorage.write. by destruct (LocalFileStorage._file_handle s). Qed.

Lemma local_pending_write d s :
  default EmptyString (LocalFileStorage._file_handle (write d s))
  = default EmptyString (LocalFileStorage._file_handle s) +:+ d.
Proof. simpl. unfold LocalFileStorage.write. by destruct (LocalFileStorage._file_handle s). Qed.

Lemma local_durable_flush s :
  default EmptyString (LocalFileStorage.file (flush s))
  = default EmptyString (LocalFileStorage.file s)
    +:+ default EmptyString (LocalFileStorage._file_handle s).
Proof.
  simpl. unfold LocalFileStorage.flush.
  destruct (LocalFileStorage._file_handle s); simpl; [done|]. by rewrite append_nil_r.
Qed.

Lemma local_pending_flush s :
  default EmptyString (LocalFileStorage._file_handle (flush s)) = EmptyString.
Proof.
  simpl. unfold LocalFileStorage.flush.
  by destruct (LocalFileStorage._file_handle s) eqn:E; simpl; rewrite ?E.
Qed.

Lemma local_durable_close s :
  default EmptyString (LocalFileStorage.file (close s))
  = default EmptyString (LocalFileStorage.file s)
    +:+ default EmptyString (LocalFileStorage._file_handle s).
Proof.
  simpl. unfold LocalFileStorage.close.
  destruct (LocalFileStorage._file_handle s); simpl; [done|]. by rewrite append_nil_r.
Qed.

Lemma local_exists_flush_write d s : exists_ (flush (write d s)) = true.
Proof.
  simpl. unfold LocalFileStorage.flush, LocalFileStorage.write, LocalFileStorage.exists_.
  destruct (LocalFileStorage._file_handle s); simpl;
    first [done | apply bool_decide_eq_true_2; eauto].
Qed.

Lemma local_exists_write d s : exists_ s = true -> exists_ (write d s) = true.
Proof.
  simpl. unfold LocalFileStorage.write, LocalFileStorage.exists_.
  rewrite !bool_decide_eq_true.
  destruct (LocalFileStorage._file_handle s); simpl; eauto.
Qed.

Lemma local_exists_flush s : exists_ s = true -> exists_ (flush s) = true.
Proof.
  simpl. unfold LocalFileStorage.flush, LocalFileStorage.exists_.
  rewrite !bool_decide_eq_true.
  destruct (LocalFileStorage._file_handle s); simpl; eauto.
Qed.

Lemma local_exists_close s : exists_ s = true -> exists_ (close s) = true.
Proof.
  simpl. unfold LocalFileStorage.close, LocalFileStorage.exists_.
  rewrite !bool_decide_eq_true.
  destruct (LocalFileStorage._file_handle s); simpl; eauto.
Qed.

Lemma local_read_lines s (ls : list string) :
  exists_ s = true ->
  default EmptyString (LocalFileStorage.file s)
  = TextIO.join (map (fun l => l +:+ String TextIO.LF EmptyString) ls) ->
  Forall (fun l => TextIO.plain l = true) ls ->
  read s = map (fun l => l +:+ String TextIO.LF EmptyString) ls.
Proof.
  simpl. intros He Hd Hall. unfold LocalFileStorage.read, TextIO.lines.
  rewrite He, Hd. simpl. apply split_go_lines; [|done..].
  intros c Hc%bool_decide_eq_true. subst c. vm_compute. lia.
Qed.
End LocalFileStorageFacts.

(** The local file satisfies the contract. *)
Definition local_file_laws : StorageLaws LocalFileStorage.t := {|
  durable s := default EmptyString (LocalFileStorage.file s);
  pending s := default EmptyString (LocalFileStorage._file_handle s);
  durable_write := local_durable_write;
  pending_write := local_pending_write;
  durable_flush := local_durable_flush;
  pending_flush := local_pending_flush;
  durable_close := local_durable_close;
  exists_flush_write := local_exists_flush_write;
  exists_write := local_exists_write;
  exists_flush := local_exists_flush;
  exists_close := local_exists_close;
  read_lines := local_read_lines;
|}.

Section S3StorageFacts.
Implicit Types (s : S3Storage.t) (d : string).

Lemma s3_durable_write d s :
  default EmptyString (S3Storage.object (write d s))
  = default EmptyString (S3Storage.object s).
Proof. done. Qed.

Lemma s3_pending_write d s :
  TextIO.join (S3Storage._buffer (write d s))
  = TextIO.join (S3Storage._buffer s) +:+ d.
Proof. simpl. rewrite join_app. simpl. by rewrite append_nil_r. Qed.

Lemma s3_existing_data s :
  (if S3Storage.exists_ s then default EmptyString (S3Storage.object s) else EmptyString)
  = default EmptyString (S3Storage.object s).
Proof. unfold S3Storage.exists_. by destruct (S3Storage.object s). Qed.

Lemma s3_durable_flush s :
  default EmptyString (S3Storage.object (flush s))
  = default EmptyString (S3Storage.object s) +:+ TextIO.join (S3Storage._buffer s).
Proof.
  simpl. unfold S3Storage.flush.
  destruct (S3Storage._buffer s) as [|x b] eqn:E; simpl.
  - by rewrite append_nil_r.
  - by rewrite s3_existing_data.
Qed.

Lemma s3_pending_flush s :
  TextIO.join (S3Storage._buffer (flush s)) = EmptyString.
Proof.
  simpl. unfold S3Storage.flush.
  by destruct (S3Storage._buffer s) as [|x b] eqn:E; simpl; rewrite ?E.
Qed.

Lemma s3_durable_close s :
  default EmptyString (S3Storage.object (close s))
  = default EmptyString (S3Storage.object s) +:+ TextIO.join (S3Storage._buffer s).
Proof.
  simpl. unfold S3Storage.close.
  destruct (Py.truthy (S3Storage._buffer s)) eqn:E; [apply s3_durable_flush|].
  destruct (S3Storage._buffer s); [|done]. simpl. by rewrite append_nil_r.
Qed.

Lemma s3_exists_flush_write d s : exists_ (flush (write d s)) = true.
Proof.
  simpl. unfold S3Storage.flush, S3Storage.write. simpl.
  by destruct (S3Storage._buffer s).
Qed.

Lemma s3_exists_write d s : exists_ s = true -> exists_ (write d s) = true.
Proof. done. Qed.

Lemma s3_exists_flush s : exists_ s = true -> exists_ (flush s) = true.
Proof.
  simpl. unfold S3Storage.flush. intros He.
  by destruct (S3Storage._buffer s).
Qed.

Lemma s3_exists_close s : exists_ s = true -> exists_ (close s) = true.
Proof.
  simpl. unfold S3Storage.close. intros He.
  destruct (Py.truthy _); [by apply s3_exists_flush | done].
Qed.

Lemma s3_read_lines s (ls : list string) :
  exists_ s = true ->
  default EmptyString (S3Storage.object s)
  = TextIO.join (map (fun l => l +:+ String TextIO.LF EmptyString) ls) ->
  Forall (fun l => TextIO.plain l = true) ls ->
  read s = map (fun l => l +:+ String TextIO.LF EmptyString) ls.
Proof.
  simpl. intros He Hd Hall. unfold S3Storage.read, TextIO.splitlines_keepends.
  rewrite He, Hd. simpl negb. cbv iota. apply split_go_lines; [|done..].
  intros c Hc. apply orb_true_iff in Hc as [Hc%orb_true_iff | Hc].
  - destruct Hc as [Hc%bool_decide_eq_true | Hc].
    + subst c. vm_compute. lia.
    + apply andb_true_iff in Hc as [_ Hc%Nat.leb_le]. lia.
  - apply andb_true_iff in Hc as [_ Hc%Nat.leb_le]. lia.
Qed.
End S3StorageFacts.

(** The object store satisfies the contract. *)
Definition s3_laws : StorageLaws S3Storage.t := {|
  durable s := default EmptyString (S3Storage.object s);
  pending s := TextIO.join (S3Storage._buffer s);
  durable_write := s3_durable_write;
  pending_write := s3_pending_write;
  durable_flush := s3_durable_flush;
  pending_flush := s3_pending_flush;
  durable_close := s3_durable_close;
  exists_flush_write := s3_exists_flush_write;
  exists_write := s3_exists_write;
  exists_flush := s3_exists_flush;
  exists_close := s3_exists_close;
  read_lines := s3_read_lines;
|}.

(** ** The checkpoint log: what is written is what is read *)

Section RoundTripFacts.
Context `{JsonLib} `{PydanticLib} {S : Type} `{CheckpointStorage S}.
Variable L : StorageLaws S.
Implicit Types (m : CheckpointManager.t S) (s : S).

Lemma total_write d s : total L (write d s) = total L s +:+ d.
Proof.
  unfold total. by rewrite (durable_write S L), (pending_write S L), append_assoc.
Qed.

Lemma total_flush s : total L (flush s) = total L s.
Proof.
  unfold total. by rewrite (durable_flush S L), (pending_flush S L), append_nil_r.
Qed.

Lemma durable_flushed s : durable L (flush s) = total L s.
Proof. apply (durable_flush S L). Qed.

Lemma write_metadata_total start_url config now m :
  let m' := CheckpointManager.write_metadata start_url config now m in
  holds L m' (total L (CheckpointManager.storage m)
            +:+ CheckpointManager.line_of
                  (CheckpointManager.metadata_record start_url config now))
  /\ CheckpointManager.flush_interval m' = CheckpointManager.flush_interval m.
Proof.
  unfold holds, CheckpointManager.write_metadata. simpl.
  rewrite (exists_flush_write S L), durable_flushed, total_write, (pending_flush S L).
  done.
Qed.

Lemma write_state_total visited queue filtered now m :
  let m' := CheckpointManager.write_state visited queue filtered now m in
  holds L m' (total L (CheckpointManager.storage m)
            +:+ CheckpointManager.line_of
                  (CheckpointManager.state_record visited queue filtered now)).
Proof.
  unfold holds, CheckpointManager.write_state. simpl.
  rewrite (exists_flush_write S L), durable_flushed, total_write, (pending_flush S L).
  done.
Qed.

Lemma holds_total m text :
  holds L m text -> total L (CheckpointManager.storage m) = text.
Proof. intros (_ & Hd & Hp). unfold total. by rewrite Hd, Hp, append_nil_r. Qed.

Lemma write_page_total m page :
  CheckpointManager.flush_interval m <> 0 ->
  let m' := Eff.exec (CheckpointManager.write_page page) m in
  total L (CheckpointManager.storage m')
  = total L (CheckpointManager.storage m)
    +:+ CheckpointManager.line_of (CheckpointManager.page_record page)
  /\ (exists_ (CheckpointManager.storage m) = true ->
      exists_ (CheckpointManager.storage m') = true).
Proof.
  intros Hk m'. subst m'.
  unfold Eff.exec, CheckpointManager.write_page, CheckpointManager.py_mod.
  eff_unfold. simpl. destruct (decide (_ = 0)) as [|_]; [done|]. simpl.
  case_bool_decide; simpl; rewrite ?total_flush, total_write; (split; [done|]);
    intros He; [apply (exists_flush S L)|]; by apply (exists_write S L).
Qed.

Lemma write_pages_total (pages : list Page.t) m :
  1 <= CheckpointManager.flush_interval m ->
  let m' := Eff.exec (CheckpointManager.write_pages pages) m in
  total L (CheckpointManager.storage m')
  = total L (CheckpointManager.storage m)
    +:+ TextIO.join
          (map (fun p => CheckpointManager.line_of (CheckpointManager.page_record p)) pages)
  /\ (exists_ (CheckpointManager.storage m) = true ->
      exists_ (CheckpointManager.storage m') = true).
Proof.
  revert m. induction pages as [|page pages IH]; intros m Hk m'.
  - subst m'. unfold Eff.exec. simpl. unfold Eff.ret. simpl.
    by rewrite append_nil_r.
  - destruct (write_page_calls m page ltac:(lia)) as (Hrun & _ & Hi & _).
    destruct (write_page_total m page ltac:(lia)) as (Ht & He).
    set (m1 := Eff.exec (CheckpointManager.write_page page) m) in *.
    destruct (IH m1 ltac:(lia)) as (Ht' & He').
    assert (Eff.exec (CheckpointManager.write_pages (page :: pages)) m
            = Eff.exec (CheckpointManager.write_pages pages) m1) as Hexec.
    { unfold Eff.exec at 1. simpl. unfold Eff.bind at 1. by rewrite Hrun. }
    subst m'. rewrite Hexec, Ht', Ht. simpl. rewrite append_assoc. auto.
Qed.

Lemma write_states_total (earlier : list Snapshot.t) (latest : Snapshot.t) m :
  holds L (CheckpointManager.write_states (earlier ++ [latest]) m)
    (total L (CheckpointManager.storage m)
     +:+ TextIO.join
           (map (fun snap => CheckpointManager.line_of (CheckpointManager.snapshot_record snap))
                (earlier ++ [latest]))).
Proof.
  revert m. induction earlier as [|snap earlier IH]; intros m; simpl.
  - rewrite append_nil_r. apply write_state_total.
  - unfold CheckpointManager.write_states in *. simpl.
    pose proof (write_state_total (Snapshot.visited snap) (Snapshot.queue snap)
                  (Snapshot.filtered snap) (Snapshot.saved_at snap) m) as Hone.
    apply holds_total in Hone.
    specialize (IH (CheckpointManager.write_state (Snapshot.visited snap)
                      (Snapshot.queue snap) (Snapshot.filtered snap)
                      (Snapshot.saved_at snap) m)).
    rewrite Hone, append_assoc in IH. exact IH.
Qed.
(** The records that the lines written hold. *)
Lemma record_of_metadata_line start_url config now :
  CheckpointManager.round_trips (CheckpointManager.metadata_record start_url config now) ->
  CheckpointManager.record_of_line
    (CheckpointManager.line_of (CheckpointManager.metadata_record start_url config now))
  = Some (LogEntry.Metadata
            [ ("type", JStr "metadata");
              ("start_url", JStr start_url);
              ("config", JDict (CrawlConfig.model_dump config));
              ("started_at", JStr now) ]).
Proof.
  intros (_ & Hne & Hload). unfold CheckpointManager.record_of_line.
  rewrite (bool_decide_eq_false_2 _ Hne), Hload. done.
Qed.

Lemma record_of_page_line (page : Page.t) :
  CheckpointManager.round_trips (CheckpointManager.page_record page) ->
  Page_validate (Page.model_dump page) = Some page ->
  CheckpointManager.record_of_line
    (CheckpointManager.line_of (CheckpointManager.page_record page))
  = Some (LogEntry.PageRecord page).
Proof.
  intros (_ & Hne & Hload) Hvalid. unfold CheckpointManager.record_of_line.
  rewrite (bool_decide_eq_false_2 _ Hne), Hload.
  assert (Json.without "type" (("type", JStr "page") :: Page.model_dump page)
          = Page.model_dump page) as Hw by reflexivity.
  unfold CheckpointManager.page_record.
  change (Json.get "type" (("type", JStr "page") :: Page.model_dump page))
    with (Some (JStr "page")).
  cbv iota beta.
  rewrite bool_decide_eq_false_2 by discriminate.
  rewrite bool_decide_eq_true_2 by reflexivity.
  by rewrite Hw, Hvalid.
Qed.

Lemma record_of_snapshot_line (snap : Snapshot.t) :
  CheckpointManager.round_trips (CheckpointManager.snapshot_record snap) ->
  exists d, CheckpointManager.snapshot_record snap = JDict d
    /\ CheckpointManager.record_of_line
         (CheckpointManager.line_of (CheckpointManager.snapshot_record snap))
       = Some (LogEntry.FrontierSnapshot d).
Proof.
  intros (_ & Hne & Hload). eexists. split; [reflexivity|].
  unfold CheckpointManager.record_of_line.
  rewrite (bool_decide_eq_false_2 _ Hne), Hload. done.
Qed.

Lemma records_of_page_lines (pages : list Page.t) :
  Forall (fun p => CheckpointManager.round_trips (CheckpointManager.page_record p)) pages ->
  Forall (fun p => Page_validate (Page.model_dump p) = Some p) pages ->
  omap CheckpointManager.record_of_line
    (map (fun p => CheckpointManager.line_of (CheckpointManager.page_record p)) pages)
  = map LogEntry.PageRecord pages.
Proof.
  intros Hrt. induction Hrt as [|p pages Hp _ IH]; intros Hv; simpl; [done|].
  inversion Hv; subst. rewrite record_of_page_line by done.
  f_equal. by apply IH.
Qed.

Lemma records_of_snapshot_lines (snaps : list Snapshot.t) :
  Forall (fun snap => CheckpointManager.round_trips (CheckpointManager.snapshot_record snap))
    snaps ->
  exists entries,
    omap CheckpointManager.record_of_line
      (map (fun snap => CheckpointManager.line_of (CheckpointManager.snapshot_record snap))
           snaps)
    = entries
    /\ Forall (fun e => exists d, e = LogEntry.FrontierSnapshot d) entries.
Proof.
  intros Hrt. induction Hrt as [|snap snaps Hs _ (entries & IH & Hall)]; simpl.
  - by exists [].
  - destruct (record_of_snapshot_line snap Hs) as (d & _ & ->).
    exists (LogEntry.FrontierSnapshot d :: entries). split.
    + f_equal. exact IH.
    + constructor; eauto.
Qed.

(** The replay of a log of one metadata record, page records and
    snapshots. *)
Lemma replay_written (md d : list (string * json)) (pages : list Page.t)
    (snaps : list LogEntry.t) :
  Forall (fun e => exists d', e = LogEntry.FrontierSnapshot d') snaps ->
  let data :=
    CheckpointManager.replay
      (LogEntry.Metadata md :: map LogEntry.PageRecord pages
         ++ snaps ++ [LogEntry.FrontierSnapshot d]) in
  Loaded.pages data = pages
  /\ Loaded.metadata data = Some (JDict md)
  /\ Loaded.state data = Some (JDict d).
Proof.
  intros Hsnaps data. subst data. unfold CheckpointManager.replay.
  split; [|split].
  - rewrite replay_entry_pages.
    change (Loaded.pages Loaded.empty) with (@nil Page.t). rewrite app_nil_l.
    change (omap ?f (LogEntry.Metadata md :: ?l)) with (omap f l).
    rewrite !omap_app.
    assert (omap (fun e => match e with LogEntry.PageRecord p => Some p | _ => None end)
              snaps = []) as ->.
    { induction Hsnaps as [|e snaps (d' & ->) _ IH]; simpl; done. }
    assert (omap (fun e => match e with LogEntry.PageRecord p => Some p | _ => None end)
              (map LogEntry.PageRecord pages) = pages) as ->.
    { induction pages as [|p pages IH]; simpl; [done|]. f_equal. exact IH. }
    simpl. by rewrite app_nil_r.
  - simpl. rewrite replay_entry_metadata_kept; [done|].
    apply Forall_app. split.
    + apply Forall_forall. intros e (p & -> & _)%list_elem_of_fmap. done.
    + apply Forall_app. split.
      * eapply Forall_impl; [exact Hsnaps|]. by intros e (d' & ->) d''.
      * by repeat constructor.
  - rewrite app_comm_cons, app_assoc, fold_left_app. done.
Qed.

(** C3. On a log that starts empty, write one metadata record, then the
    pages with [write_page] under any flush interval of at least one, then
    one or more snapshots with [write_state], the last of which flushes.
    When the JSON text of each record written is one plain line that is
    read back as the record, and each page validates from its dump, every
    manager that reads that storage, as it is or closed, loads exactly the
    pages in the order written, the metadata record with the start URL
    written, and the last snapshot written. *)
Theorem checkpoint_round_trip (s0 : S) (interval : Z)
    (start_url : string) (config : CrawlConfig.t) (now : string)
    (pages : list Page.t) (earlier : list Snapshot.t) (latest : Snapshot.t) :
  1 <= interval ->
  durable L s0 = EmptyString -> pending L s0 = EmptyString ->
  CheckpointManager.round_trips (CheckpointManager.metadata_record start_url config now) ->
  Forall (fun p => CheckpointManager.round_trips (CheckpointManager.page_record p)
                   /\ Page_validate (Page.model_dump p) = Some p) pages ->
  Forall (fun snap => CheckpointManager.round_trips (CheckpointManager.snapshot_record snap))
    (earlier ++ [latest]) ->
  let m :=
    CheckpointManager.write_states (earlier ++ [latest])
      (Eff.exec (CheckpointManager.write_pages pages)
         (CheckpointManager.write_metadata start_url config now
            (CheckpointManager.init s0 interval))) in
  forall reader : CheckpointManager.t S,
    CheckpointManager.storage reader = CheckpointManager.storage m
    \/ CheckpointManager.storage reader
       = CheckpointManager.storage (CheckpointManager.close_ m) ->
    let data := CheckpointManager.load reader in
    Loaded.pages data = pages
    /\ Loaded.metadata data
       = Some (CheckpointManager.metadata_record start_url config now)
    /\ (exists md, Loaded.metadata data = Some (JDict md)
                   /\ Json.get "start_url" md = Some (JStr start_url))
    /\ Loaded.state data = Some (CheckpointManager.snapshot_record latest).
Proof.
  intros Hk Hd0 Hp0 Hmeta Hpages Hsnaps m reader Hreader data.
  set (m0 := CheckpointManager.init s0 interval).
  set (m1 := CheckpointManager.write_metadata start_url config now m0) in *.
  set (m2 := Eff.exec (CheckpointManager.write_pages pages) m1) in *.
  set (records :=
         CheckpointManager.metadata_record start_url config now
         :: map CheckpointManager.page_record pages
         ++ map CheckpointManager.snapshot_record (earlier ++ [latest])).
  set (text := TextIO.join
                 (map (fun l => l +:+ String TextIO.LF EmptyString)
                      (map json_dumps records))).
  (* what the log holds *)
  assert (holds L m text) as Hm.
  { destruct (write_metadata_total start_url config now m0) as (Ht1 & Hi1).
    apply holds_total in Ht1.
    assert (1 <= CheckpointManager.flush_interval m1) as Hk1 by exact Hk.
    destruct (write_pages_total pages m1 Hk1) as (Ht2 & _).
    pose proof (write_states_total earlier latest m2) as Ht3.
    fold m1 in Ht1. fold m2 in Ht2.
    replace text with
      (total L (CheckpointManager.storage m2)
       +:+ TextIO.join
             (map (fun snap => CheckpointManager.line_of
                                 (CheckpointManager.snapshot_record snap))
                  (earlier ++ [latest]))); [exact Ht3|].
    rewrite Ht2, Ht1. unfold total at 1. simpl CheckpointManager.storage.
    rewrite Hd0, Hp0. subst text records. simpl.
    rewrite !append_nil_l.
    rewrite (map_app json_dumps), (map_app (fun l => l +:+ String TextIO.LF EmptyString)).
    rewrite join_app, !map_map.
    unfold CheckpointManager.line_of, CheckpointManager.newline.
    rewrite !append_assoc. reflexivity. }
  (* what the reader sees *)
  assert (exists_ (CheckpointManager.storage reader) = true
          /\ durable L (CheckpointManager.storage reader) = text) as (He & Hd).
  { destruct Hm as (He & Hd & Hp). destruct Hreader as [-> | ->]; [done|].
    simpl. split.
    - by apply (exists_close S L), (exists_flush S L).
    - by rewrite (durable_close S L), (durable_flush S L), (pending_flush S L),
        Hd, Hp, !append_nil_r. }
  assert (Forall (fun l => TextIO.plain l = true) (map json_dumps records)) as Hplain.
  { subst records. apply Forall_fmap. constructor; [apply Hmeta|].
    apply Forall_app. split.
    - apply Forall_fmap. eapply Forall_impl; [exact Hpages|]. by intros p ((? & _) & _).
    - apply Forall_fmap. eapply Forall_impl; [exact Hsnaps|]. by intros snap (? & _). }
  pose proof (read_lines S L _ _ He Hd Hplain) as Hread.
  (* the records its lines hold *)
  apply Forall_app in Hsnaps as (Hearlier & Hlatest).
  inversion Hlatest as [|? ? Hlast _]; subst.
  destruct (records_of_snapshot_lines earlier Hearlier) as (entries & Hentries & Hshape).
  destruct (record_of_snapshot_line latest Hlast) as (d & Hd_latest & Hline_latest).
  assert (Forall (fun p => CheckpointManager.round_trips (CheckpointManager.page_record p))
            pages) as Hrt by (eapply Forall_impl; [exact Hpages|]; by intros p (? & _)).
  assert (Forall (fun p => Page_validate (Page.model_dump p) = Some p) pages) as Hval
    by (eapply Forall_impl; [exact Hpages|]; by intros p (_ & ?)).
  set (md := [ ("type", JStr "metadata"); ("start_url", JStr start_url);
               ("config", JDict (CrawlConfig.model_dump config));
               ("started_at", JStr now) ]).
  assert (CheckpointManager.load reader
          = CheckpointManager.replay
              (LogEntry.Metadata md
               :: map LogEntry.PageRecord pages
               ++ entries ++ [LogEntry.FrontierSnapshot d])) as Hload.
  { unfold CheckpointManager.load, CheckpointManager.replay.
    rewrite He. simpl negb. cbv iota.
    rewrite fold_load_line_replay. f_equal.
    rewrite Hread. subst records. rewrite !map_map.
    change (fun x : json => json_dumps x +:+ String TextIO.LF EmptyString)
      with CheckpointManager.line_of.
    rewrite map_cons, !map_app, !map_map.
    change (omap ?f (?x :: ?l))
      with (match f x with Some y => y :: omap f l | None => omap f l end).
    rewrite record_of_metadata_line by done.
    rewrite !omap_app, records_of_page_lines, Hentries by done.
    simpl. by rewrite Hline_latest. }
  subst data. rewrite Hload.
  destruct (replay_written md d pages entries Hshape) as (Hp & Hmd & Hst).
  rewrite Hp, Hmd, Hst, Hd_latest.
  split; [done|]. split; [done|]. split; [|done].
  eexists. split; [reflexivity|]. reflexivity.
Qed.
End RoundTripFacts.

(** *** The checkpoint log of the sample *)

Section CheckpointSamples.
Import Sample.

(** Closes a goal [round_trips record] on a concrete record. *)
Ltac round_trip :=
  split; [vm_compute; reflexivity | split; [vm_compute; discriminate | vm_compute; reflexivity]].


(** Metadata, five pages under a flush interval of two and two snapshots,
    written to a local file and closed, are loaded by a new manager. *)
Lemma checkpoint_round_trip_sample :
  let m :=
    CheckpointManager.write_states [snapshot_one; snapshot_two]
      (Eff.exec (CheckpointManager.write_pages five_pages)
         (CheckpointManager.write_metadata home config_deep now
            (CheckpointManager.init LocalFileStorage.init 2))) in
  let data :=
    CheckpointManager.load
      (CheckpointManager.init
         (CheckpointManager.storage (CheckpointManager.close_ m)) 10) in
  Loaded.pages data = five_pages
  /\ Loaded.metadata data = Some (CheckpointManager.metadata_record home config_deep now)
  /\ (exists md, Loaded.metadata data = Some (JDict md)
                 /\ Json.get "start_url" md = Some (JStr home))
  /\ Loaded.state data = Some (CheckpointManager.snapshot_record snapshot_two).
Proof.
  refine (checkpoint_round_trip local_file_laws LocalFileStorage.init 2 home config_deep now
            five_pages [snapshot_one] snapshot_two _ _ _ _ _ _ _ _).
  - lia.
  - reflexivity.
  - reflexivity.
  - round_trip.
  - unfold five_pages. simpl map.
    repeat (apply List.Forall_cons; [split; [round_trip | vm_compute; reflexivity] |]).
    apply List.Forall_nil.
  - simpl app.
    repeat (apply List.Forall_cons; [round_trip |]).
    apply List.Forall_nil.
  - right. reflexivity.
Defined.
End CheckpointSamples.

(** ** The crawler: resuming and the worker loop *)

Section CrawlerFacts.
Context `{UrlLib} `{JsonLib} `{PydanticLib} `{Collaborators}
        {S : Type} `{CheckpointStorage S}.
Implicit Types (c : Crawler.t S) (m : CheckpointManager.t S).





(** What one turn of the worker does with a URL whose processing raises
    before the page is built. *)
Lemma worker_try_fails c (url : string) (depth : Z) (now : string) (e : exn) :
  fetch url = inl e
  \/ (exists content status,
        fetch url = inr (content, status) /\ parse content url = inl e)
  \/ (exists content status parsed,
        fetch url = inr (content, status) /\ parse content url = inr parsed
        /\ CrawlConfig.extract_text (Crawler.config c) = true
        /\ extract content url = inl e) ->
  Crawler._worker_try url depth now c = (c, inl e).
Proof.
  unfold Crawler._worker_try. eff_unfold.
  intros [Hf | [(content & status & Hf & Hp) | (content & status & parsed & Hf & Hp & Hx & He)]];
    rewrite Hf; simpl; [done| |]; rewrite Hp; simpl; [done|].
  by rewrite Hx, He.
Qed.

(** C8. When the worker pops [(url, depth)] and fetching, parsing or
    extracting raises, the turn ends as any other, with the loop to go
    on: no page is added to the results, the checkpoint manager with its
    storage and the calls made on it is as before, the scheduler has lost
    the popped entry and gained nothing, and the one event logged is the
    error.  The loop then takes its next turn from that state. *)
Theorem worker_failure_isolated c (now : string) (url : string) (depth : Z)
    (rest : list (string * Z)) (e : exn) :
  Z.of_nat (length (Crawler.pages c)) < CrawlConfig.max_pages (Crawler.config c) ->
  Scheduler.queue (Crawler.scheduler c) = (url, depth) :: rest ->
  fetch url = inl e
  \/ (exists content status,
        fetch url = inr (content, status) /\ parse content url = inl e)
  \/ (exists content status parsed,
        fetch url = inr (content, status) /\ parse content url = inr parsed
        /\ CrawlConfig.extract_text (Crawler.config c) = true
        /\ extract content url = inl e) ->
  let c' := fst (Crawler._worker_turn now c) in
  snd (Crawler._worker_turn now c) = Continue
  /\ Crawler.pages c' = Crawler.pages c
  /\ Crawler.checkpoint_manager c' = Crawler.checkpoint_manager c
  /\ Crawler.scheduler c' = Scheduler.set_queue rest (Crawler.scheduler c)
  /\ Scheduler.visited (Crawler.scheduler c') = Scheduler.visited (Crawler.scheduler c)
  /\ Scheduler.filtered (Crawler.scheduler c') = Scheduler.filtered (Crawler.scheduler c)
  /\ Crawler.log c' = Crawler.log c ++ ["crawl_error"]
  /\ Crawler.config c' = Crawler.config c
  /\ (forall (clock : nat -> string) (fuel : nat),
        clock fuel = now ->
        Crawler._worker clock (Datatypes.S fuel) c = Crawler._worker clock fuel c').
Proof.
  intros Hbudget Hq Hfail c'.
  assert (Crawler._worker_turn now c
          = (Crawler.logger "crawl_error"
               (Crawler.set_scheduler
                  (Scheduler.set_queue rest (Crawler.scheduler c)) c),
             Continue)) as Hturn.
  { unfold Crawler._worker_turn.
    rewrite bool_decide_eq_false_2 by lia.
    unfold Scheduler.get. rewrite Hq.
    by rewrite (worker_try_fails
                  (Crawler.set_scheduler
                     (Scheduler.set_queue rest (Crawler.scheduler c)) c)
                  url depth now e Hfail). }
  subst c'. rewrite Hturn. simpl.
  repeat (split; [done|]).
  intros clock fuel Hnow. simpl. by rewrite Hnow, Hturn.
Qed.
End CrawlerFacts.

(** *** The sample crawler *)

Section CrawlerSamples.
Import Sample.


(** The worker that pops the page whose content does not parse goes on
    with no page added. *)
Lemma worker_failure_isolated_sample :
  snd (Crawler._worker_turn now failing_crawler) = Continue
  /\ Crawler.pages (fst (Crawler._worker_turn now failing_crawler)) = [].
Proof.
  destruct (worker_failure_isolated failing_crawler now "https://example.com/bad" 0 []
              (Raised "ParserError")) as (Hc & Hp & _).
  - simpl. lia.
  - vm_compute. reflexivity.
  - right. left. exists "<bad>", 200. split; reflexivity.
  - split; [exact Hc | exact Hp].
Defined.

(** The log of the first run with its last line cut short loads as the
    metadata and the three pages before it, without a state. *)
Example load_truncated_sample :
  let data := CheckpointManager.load (CheckpointManager.init truncated_log 2) in
  map Page.url (Loaded.pages data)
  = [home; "https://example.com/1"; "https://example.com/2"]
  /\ Loaded.state data = None
  /\ Loaded.metadata data = Some (CheckpointManager.metadata_record home config_deep now).
Proof. vm_compute. done. Qed.
End CrawlerSamples.

(** * Further properties

    What the sources show beyond the claims above: the frontier over any
    calls, the rules of the filters, the location and the backends of a
    storage, the checkpoint log between flushes and across runs, the loop
    of the worker, the restore of a snapshot, the fetcher and the links of
    the parser. *)

(** ** Strings *)

Section StringFacts.

Lemma prefix_refl_app (p b : string) : String.prefix p (p +:+ b) = true.
Proof.
  induction p as [|c p IH]; simpl; [by destruct b|].
  destruct (Ascii.ascii_dec c c); [exact IH | done].
Qed.

Lemma startswith_app (p b : string) : Py.startswith (p +:+ b) p = true.
Proof. apply prefix_refl_app. Qed.

Lemma substring_of_app (p a b : string) : Py.substring_of p (a +:+ p +:+ b) = true.
Proof.
  induction a as [|c a IH].
  - change (EmptyString +:+ p +:+ b) with (p +:+ b).
    pose proof (prefix_refl_app p b) as E.
    destruct (p +:+ b); [exact E|].
    cbn [Py.substring_of]. by rewrite E.
  - change (String c a +:+ p +:+ b) with (String c (a +:+ p +:+ b)).
    cbn [Py.substring_of]. rewrite IH. apply orb_true_r.
Qed.

Lemma prefix_drop (p s : string) :
  String.prefix p s = true -> s = p +:+ StorageUri.drop (String.length p) s.
Proof.
  revert s. induction p as [|a p IH]; intros s; [done|].
  destruct s as [|b s]; [done|].
  cbn [String.prefix String.length StorageUri.drop].
  destruct (Ascii.ascii_dec a b) as [<-|]; [|done].
  intros Hp. rewrite append_cons. f_equal. by apply IH.
Qed.

Lemma substring_of_inv (p s : string) :
  Py.substring_of p s = true -> exists a b, s = a +:+ p +:+ b.
Proof.
  induction s as [|c s IH]; cbn [Py.substring_of].
  - intros Hp%prefix_drop. exists EmptyString, EmptyString.
    destruct p; [done | discriminate Hp].
  - intros [Hp%prefix_drop | (a & b & ->)%IH]%orb_true_iff.
    + exists EmptyString. eauto.
    + by exists (String c a), b.
Qed.

Lemma rev_app_append (s1 s2 acc : string) :
  String.rev_app (s1 +:+ s2) acc = String.rev_app s2 (String.rev_app s1 acc).
Proof. revert acc. induction s1 as [|c s1 IH]; intros acc; simpl; [done | apply IH]. Qed.

Lemma rev_app_acc (s acc : string) :
  String.rev_app s acc = String.rev_app s EmptyString +:+ acc.
Proof.
  revert acc. induction s as [|c s IH]; intros acc; simpl; [done|].
  rewrite (IH (String c acc)), (IH (String c EmptyString)).
  by rewrite append_assoc.
Qed.

Lemma endswith_app (a b : string) : Py.endswith (a +:+ b) b = true.
Proof.
  unfold Py.endswith, String.rev.
  rewrite rev_app_append, (rev_app_acc b (String.rev_app a EmptyString)).
  apply prefix_refl_app.
Qed.


Lemma existsb_elem {A} (f : A -> bool) (l : list A) (x : A) :
  x ∈ l -> f x = true -> existsb f l = true.
Proof.
  intros Hin Hf. apply existsb_exists. exists x. split; [|done].
  by apply list_elem_of_In.
Qed.

Lemma truthy_elem {A} (l : list A) (x : A) : x ∈ l -> Py.truthy l = true.
Proof. destruct l; [by intros ?%elem_of_nil | done]. Qed.
End StringFacts.

(** ** The frontier over any calls *)

Section FrontierFacts.
Context `{UrlLib}.
Implicit Types (s : Scheduler.t) (url : string) (depth : Z).

Lemma filter_rejects_ext s s' url :
  Scheduler.url_filter s' = Scheduler.url_filter s ->
  Scheduler.filter_rejects s' url <-> Scheduler.filter_rejects s url.
Proof. unfold Scheduler.filter_rejects. by intros ->. Qed.

Lemma consistent_ext s s' :
  Scheduler.queue s' = Scheduler.queue s ->
  Scheduler.visited s' = Scheduler.visited s ->
  Scheduler.filtered s' = Scheduler.filtered s ->
  Scheduler.url_filter s' = Scheduler.url_filter s ->
  Frontier.consistent s -> Frontier.consistent s'.
Proof.
  unfold Frontier.consistent, Frontier.queued, Scheduler.filter_rejects.
  by intros -> -> -> ->.
Qed.

Lemma consistent_anchored s url :
  Frontier.consistent s -> Frontier.consistent (Scheduler.anchored s url).
Proof.
  pose proof (anchored_frame s url) as (? & ? & ? & _ & _ & ?).
  by apply consistent_ext.
Qed.

Lemma consistent_add s url depth :
  Frontier.consistent s -> Frontier.consistent (Scheduler.add s url depth).
Proof.
  intros Hc. pose proof (consistent_anchored s url Hc) as Ha.
  pose proof (anchored_frame s url) as (Hq & Hv & Hf & _ & _ & Hu).
  rewrite add_cases. cbv zeta.
  destruct (bool_decide (url ∈ _)) eqn:Ev; [done|].
  destruct (bool_decide (depth > _)); [done|].
  destruct (_ && _); [done|].
  apply bool_decide_eq_false in Ev.
  destruct (match Scheduler.url_filter s with Some _ => _ | None => _ end) eqn:F.
  - apply filter_rejects_decide in F.
    destruct Ha as (Hnd & Hqv & Hvf & Hff).
    repeat split; try done.
    intros u [Hu'|Hu']%elem_of_union.
    + apply Hff. by rewrite Hf.
    + apply elem_of_singleton in Hu' as ->.
      by apply (filter_rejects_ext s).
  - assert (~ Scheduler.filter_rejects s url) as Hnf.
    { intros Hr%filter_rejects_decide. congruence. }
    destruct Ha as (Hnd & Hqv & Hvf & Hff).
    unfold Frontier.consistent, Frontier.queued in *. simpl.
    rewrite Hq in *. rewrite Hv in *.
    repeat split.
    + rewrite map_app. simpl. apply NoDup_app. repeat split; try done.
      * intros u Hin Hin'. apply list_elem_of_singleton in Hin' as ->.
        by apply Ev, Hqv.
      * apply NoDup_singleton.
    + intros u. rewrite map_app, elem_of_app. simpl.
      intros [Hin|Hin]; [apply elem_of_union_l; by apply Hqv|].
      apply list_elem_of_singleton in Hin as ->. set_solver.
    + intros u [Hin|Hin]%elem_of_union.
      * by apply Hvf.
      * apply elem_of_singleton in Hin as ->.
        intros Hr. apply Hnf. by apply (filter_rejects_ext s) in Hr.
    + done.
Qed.

Lemma consistent_get s :
  Frontier.consistent s -> Frontier.consistent (Scheduler.get s).2.
Proof.
  unfold Scheduler.get.
  destruct (Scheduler.queue s) as [|item rest] eqn:E; [done|].
  unfold Frontier.consistent, Frontier.queued. simpl. rewrite E. simpl.
  intros (Hnd & Hqv & Hvf & Hff). apply NoDup_cons in Hnd as [_ Hnd].
  repeat split; try done.
  intros u Hin. apply Hqv. by right.
Qed.

Lemma consistent_run s ops :
  Frontier.consistent s -> Frontier.consistent (Scheduler.run s ops).
Proof.
  revert s. induction ops as [|o ops IH]; intros s Hc; simpl; [done|].
  apply IH. destruct o; simpl; [by apply consistent_add | by apply consistent_get].
Qed.

Lemma consistent_init max_depth follow_external url_filter :
  Frontier.consistent (Scheduler.init max_depth follow_external url_filter).
Proof.
  unfold Frontier.consistent, Frontier.queued. simpl.
  repeat split; [apply NoDup_nil_2 | set_solver..].
Qed.

(** X1. Whatever calls of [add] and [get] are made on a new scheduler, no
    URL waits twice in its queue, every waiting URL is in the visited set,
    the filter rejects every URL of the filtered set and none of the
    visited set, so that the two sets are disjoint, and the queue is never
    longer than the visited set is large. *)
Theorem frontier_consistent max_depth follow_external url_filter ops :
  let s := Scheduler.run (Scheduler.init max_depth follow_external url_filter) ops in
  NoDup (Frontier.queued s)
  /\ (forall u, u ∈ Frontier.queued s -> u ∈ Scheduler.visited s)
  /\ (forall u, u ∈ Scheduler.visited s -> ~ Scheduler.filter_rejects s u)
  /\ (forall u, u ∈ Scheduler.filtered s -> Scheduler.filter_rejects s u)
  /\ Scheduler.visited s ## Scheduler.filtered s
  /\ (Scheduler.size s <= Scheduler.visited_count s)%nat.
Proof.
  intros s.
  destruct (consistent_run _ ops (consistent_init max_depth follow_external url_filter))
    as (Hnd & Hqv & Hvf & Hff).
  fold s in Hnd, Hqv, Hvf, Hff.
  repeat split; try done.
  - intros u Hu Hu'. by apply (Hvf u Hu), Hff.
  - unfold Scheduler.size, Scheduler.visited_count.
    rewrite <- (length_map fst). fold (Frontier.queued s).
    rewrite <- (size_list_to_set (C := gset string)) by done.
    apply subseteq_size. intros u Hu%elem_of_list_to_set. by apply Hqv.
Qed.

Lemma in_scope_add s url depth :
  Scheduler.follow_external s = false ->
  Frontier.in_scope s -> Frontier.in_scope (Scheduler.add s url depth).
Proof.
  intros Hfe Hin.
  pose proof (anchored_frame s url) as (Hq & Hv & Hf & _ & _ & Hu).
  assert (Frontier.in_scope (Scheduler.anchored s url)) as Ha.
  { unfold Frontier.in_scope. rewrite Hv, Hf. intros u Hu'.
    pose proof (Hin u Hu') as E. unfold Scheduler.anchored. by rewrite <- E. }
  rewrite add_cases. cbv zeta.
  destruct (bool_decide (url ∈ _)); [done|].
  destruct (bool_decide (depth > _)); [done|].
  rewrite Hfe. simpl negb. rewrite andb_true_l.
  case_bool_decide as Es; [done|].
  destruct (match Scheduler.url_filter s with Some _ => _ | None => _ end);
    unfold Frontier.in_scope in *; simpl; rewrite ?Hv, ?Hf in *;
    intros u [Hu'|Hu']; try (apply Ha; by auto);
    apply elem_of_union in Hu' as [Hu'|Hu'];
    try (apply Ha; by auto); by apply elem_of_singleton in Hu' as ->.
Qed.

Lemma in_scope_run s ops :
  Scheduler.follow_external s = false ->
  Frontier.in_scope s -> Frontier.in_scope (Scheduler.run s ops).
Proof.
  revert s. induction ops as [|o ops IH]; intros s Hfe Hin; simpl; [done|].
  destruct o as [url depth|]; simpl; apply IH.
  - by pose proof (add_config s url depth) as (_ & -> & _).
  - by apply in_scope_add.
  - unfold Scheduler.get. by destruct (Scheduler.queue s).
  - unfold Scheduler.get. by destruct (Scheduler.queue s).
Qed.

(** X2. A scheduler that does not follow external links takes the
    authority of the first URL passed to [add] as its start domain and
    keeps it through every later call; every URL that reaches its visited
    set or its filtered set has that authority. *)
Theorem frontier_stays_on_start_domain max_depth url_filter first depth ops :
  let s := Scheduler.run (Scheduler.init max_depth false url_filter)
             (Scheduler.Add first depth :: ops) in
  Scheduler.start_domain s = Some (netloc first)
  /\ (forall u, u ∈ Scheduler.visited s \/ u ∈ Scheduler.filtered s ->
        netloc u = netloc first).
Proof.
  intros s.
  assert (Scheduler.start_domain s = Some (netloc first)) as Hsd.
  { subst s. simpl. apply run_start_domain.
    by pose proof (add_config (Scheduler.init max_depth false url_filter) first depth)
      as (_ & _ & _ & ->). }
  split; [done|].
  assert (Frontier.in_scope s) as Hin.
  { subst s. apply in_scope_run; [done|]. intros u. simpl. set_solver. }
  intros u Hu. pose proof (Hin u Hu) as E. rewrite Hsd in E. by injection E.
Qed.

Lemma drain_queue (n : nat) s :
  (length (Scheduler.queue s) <= n)%nat ->
  Frontier.drain n s = (Scheduler.queue s, Scheduler.set_queue [] s).
Proof.
  revert s. induction n as [|n IH]; intros s Hn.
  - destruct s as [md fe uf q v f sd]. simpl in *.
    destruct q; [done | simpl in Hn; lia].
  - simpl. unfold Scheduler.get.
    destruct s as [md fe uf q v f sd]. simpl in *.
    destruct q as [|item rest]; [done|].
    rewrite IH by (simpl in *; lia). done.
Qed.

(** X3. [get] is first in, first out: after an admitted [add], the calls
    of [get] return the entries that were queued before it, in their
    order, and then the new entry; on the drained queue [get] returns
    [None] and leaves the scheduler as it is. *)
Theorem get_is_fifo s url depth (n : nat) :
  Scheduler.admissible s url depth ->
  (length (Scheduler.queue s) < n)%nat ->
  Frontier.drain n (Scheduler.add s url depth)
  = (Scheduler.queue s ++ [(url, depth)],
     Scheduler.set_queue [] (Scheduler.add s url depth))
  /\ Scheduler.get (Frontier.drain n (Scheduler.add s url depth)).2
     = (None, (Frontier.drain n (Scheduler.add s url depth)).2).
Proof.
  intros Ha Hn.
  assert (Scheduler.queue (Scheduler.add s url depth)
          = Scheduler.queue s ++ [(url, depth)]) as Hq
    by (by rewrite add_admitted).
  rewrite drain_queue by (rewrite Hq, length_app; simpl; lia).
  by rewrite Hq.
Qed.
End FrontierFacts.

Section FrontierSamples.
Import Sample.

Lemma get_is_fifo_sample :
  Frontier.drain 2 (Scheduler.add seeded "https://example.com/a" 1)
  = ([(home, 0); ("https://example.com/a", 1)],
     Scheduler.set_queue [] (Scheduler.add seeded "https://example.com/a" 1)).
Proof.
  refine (proj1 (get_is_fifo seeded "https://example.com/a" 1 2 _ _)).
  - repeat split.
    + vm_compute. intros [=].
    + vm_compute. intros [=].
    + vm_compute. intros [_ Hne]. by apply Hne.
    + vm_compute. by intros (f & [=] & _).
  - vm_compute. lia.
Defined.
End FrontierSamples.

(** ** The filters beyond the exclude rule *)

Section FilterRules.
Context `{UrlLib}.
Implicit Types (url pattern : string).

(** X4. With no include pattern, no exclude pattern, no extension to skip
    and no allowed domain, each list absent or empty, [from_config] builds
    the filter that has neither part; it accepts every URL, and so do the
    URL filter and the domain filter built from the same lists. *)
Theorem no_rules_accept_every_url (include exclude skip allowed : option (list string)) url :
  default [] include = [] -> default [] exclude = [] ->
  default [] skip = [] -> default [] allowed = [] ->
  CombinedFilter.from_config include exclude skip allowed = CombinedFilter.mk None None
  /\ CombinedFilter.should_crawl
       (CombinedFilter.from_config include exclude skip allowed) url = true
  /\ URLFilter.should_crawl (URLFilter.init include exclude skip) url = true
  /\ DomainFilter.should_crawl (DomainFilter.init allowed) url = true.
Proof.
  intros Hi He Hs Ha.
  unfold CombinedFilter.from_config, CombinedFilter.should_crawl,
    URLFilter.should_crawl, URLFilter.init, DomainFilter.should_crawl, DomainFilter.init.
  rewrite Hi, He, Hs, Ha. simpl. done.
Qed.

(** X5. The extensions to skip are compared in lower case and without
    their leading dots against the path of the URL in lower case.  A URL
    whose path ends in one of them is rejected whatever the include and
    exclude patterns are, and by the combined filter whatever the allowed
    domains are. *)
Theorem skipped_extension_rejects (include exclude : option (list string))
    (skip : list string) (ext : string) url :
  ext ∈ skip ->
  Py.endswith (Py.lower (path url)) ("." +:+ Py.lstrip_char "." (Py.lower ext)) = true ->
  URLFilter.should_crawl (URLFilter.init include exclude (Some skip)) url = false
  /\ forall allowed,
       CombinedFilter.should_crawl
         (CombinedFilter.from_config include exclude (Some skip) allowed) url = false.
Proof.
  intros Hin Hend.
  assert (URLFilter.should_crawl (URLFilter.init include exclude (Some skip)) url = false)
    as Hrej.
  { unfold URLFilter.should_crawl, URLFilter.init. simpl.
    set (norm := fun e => Py.lstrip_char "." (Py.lower e)).
    assert (norm ext ∈ map norm skip) as Hin' by (by apply (list_elem_of_fmap_2 norm)).
    rewrite (truthy_elem _ _ Hin').
    by rewrite (existsb_elem _ _ _ Hin' Hend). }
  split; [done|]. intros allowed.
  unfold CombinedFilter.should_crawl, CombinedFilter.from_config.
  destruct skip as [|e skip']; [by apply elem_of_nil in Hin|].
  cbn [CombinedFilter.url_filter CombinedFilter.domain_filter default Py.truthy].
  rewrite !orb_true_r, Hrej. simpl.
  by destruct (match _ with Some d => negb (DomainFilter.should_crawl d url) | None => false end).
Qed.

(** X6. A pattern that is taken for a regular expression (it has no [*]
    and no [?], and starts with [^], ends with [$] or holds a bracket) and
    does not compile matches no URL: as the only include pattern it
    rejects the URL, as the only exclude pattern it lets the URL pass. *)
Theorem invalid_regex_matches_nothing pattern url :
  Py.contains "*" pattern = false -> Py.contains "?" pattern = false ->
  Py.startswith pattern "^" || Py.endswith pattern "$" || Py.contains "[" pattern = true ->
  re_match pattern url = None ->
  URLFilter._match_pattern url pattern = false
  /\ URLFilter.should_crawl (URLFilter.init (Some [pattern]) None None) url = false
  /\ URLFilter.should_crawl (URLFilter.init None (Some [pattern]) None) url = true.
Proof.
  intros Hs Hq Hre Hnone.
  assert (URLFilter._match_pattern url pattern = false) as Hm.
  { unfold URLFilter._match_pattern. by rewrite Hs, Hq, Hre, Hnone. }
  unfold URLFilter.should_crawl, URLFilter.init. simpl. by rewrite Hm.
Qed.

(** X7. A pattern with none of the marks of a glob or of a regular
    expression matches exactly the URLs in which it occurs. *)
Theorem plain_pattern_is_substring pattern url :
  Py.contains "*" pattern = false -> Py.contains "?" pattern = false ->
  Py.startswith pattern "^" || Py.endswith pattern "$" || Py.contains "[" pattern = false ->
  URLFilter._match_pattern url pattern = true
  <-> exists before after, url = before +:+ pattern +:+ after.
Proof.
  intros Hs Hq Hre.
  unfold URLFilter._match_pattern. rewrite Hs, Hq, Hre. cbn [orb].
  split; [apply substring_of_inv|].
  intros (before & after & ->). apply substring_of_app.
Qed.

(** X8. The domain filter accepts a URL whose authority is an allowed
    domain, or any prefix followed by a dot and an allowed domain. *)
Theorem domain_filter_accepts_subdomains (allowed : list string) (domain : string) url :
  domain ∈ allowed ->
  (netloc url = domain
   \/ exists sub, netloc url = sub +:+ "." +:+ domain) ->
  DomainFilter.should_crawl (DomainFilter.init (Some allowed)) url = true.
Proof.
  intros Hin Hd.
  unfold DomainFilter.should_crawl, DomainFilter.init. simpl.
  case_bool_decide as He; [done|].
  destruct Hd as [Hd | [sub Hd]].
  - rewrite bool_decide_eq_true_2; [done|]. rewrite Hd. by apply elem_of_list_to_set.
  - case_bool_decide; [done|].
    apply (existsb_elem _ _ domain).
    + by apply elem_of_elements, elem_of_list_to_set.
    + rewrite Hd. apply endswith_app.
Qed.

(** X9. A domain filter with at least one allowed domain accepts a URL
    only if its authority is an allowed domain or ends with a dot followed
    by an allowed domain. *)
Theorem domain_filter_accepts_only_allowed (allowed : list string) url :
  allowed <> [] ->
  DomainFilter.should_crawl (DomainFilter.init (Some allowed)) url = true ->
  exists domain, domain ∈ allowed
    /\ (netloc url = domain \/ Py.endswith (netloc url) ("." +:+ domain) = true).
Proof.
  intros Hne.
  unfold DomainFilter.should_crawl, DomainFilter.init. simpl.
  case_bool_decide as He.
  { destruct allowed as [|d l]; [done|]. set_solver. }
  case_bool_decide as Hd.
  - intros _. exists (netloc url). split; [by apply elem_of_list_to_set in Hd | by left].
  - intros (d & Hin & Hend)%existsb_exists.
    exists d. split; [|by right].
    by apply list_elem_of_In, elem_of_elements, elem_of_list_to_set in Hin.
Qed.
End FilterRules.

(** ** The location of a storage *)

Section StorageUriFacts.

Lemma split_once_found (sep : ascii) (a b : string) :
  Py.contains sep a = false ->
  StorageUri.split_once sep (a +:+ String sep b) = (a, Some b).
Proof.
  induction a as [|c a IH]; intros Hc.
  - rewrite append_nil_l. simpl. by destruct (decide (sep = sep)).
  - rewrite append_cons. simpl in *.
    destruct (decide (sep = c)) as [->|Hne]; [done|].
    destruct (decide (c = sep)) as [->|_]; [done|].
    by rewrite IH.
Qed.

Lemma split_once_none (sep : ascii) (s : string) :
  Py.contains sep s = false -> StorageUri.split_once sep s = (s, None).
Proof.
  induction s as [|c s IH]; simpl; [done|].
  destruct (decide (sep = c)) as [<-|Hne]; [done|].
  destruct (decide (c = sep)) as [->|_]; [done|].
  intros Hs. by rewrite IH.
Qed.

Lemma split_once_some (sep : ascii) (s a b : string) :
  StorageUri.split_once sep s = (a, Some b) ->
  s = a +:+ String sep b /\ Py.contains sep a = false.
Proof.
  revert a. induction s as [|c s IH]; intros a; simpl; [done|].
  destruct (decide (c = sep)) as [->|Hne].
  - intros [= <- <-]. done.
  - destruct (StorageUri.split_once sep s) as [a' b'] eqn:E.
    intros [= <- ->]. destruct (IH a' eq_refl) as [-> Hc].
    split; [done|]. simpl. by destruct (decide (sep = c)) as [->|_].
Qed.

Lemma startswith_s3 (uri : string) :
  Py.startswith uri "s3://" = true -> uri = "s3://" +:+ StorageUri.drop 5 uri.
Proof. apply (prefix_drop "s3://"). Qed.

(** X10. [_parse_uri] returns a bucket and a key exactly on the URIs
    [s3://bucket/key] whose bucket holds no slash: the bucket is the text
    between the prefix and the first slash after it, the key all that
    follows that slash.  The only exception it raises is [ValueError]. *)
Theorem parse_uri_inverts_format (uri bucket key : string) :
  (StorageUri._parse_uri uri = inr (bucket, key)
   <-> uri = "s3://" +:+ bucket +:+ "/" +:+ key /\ Py.contains "/" bucket = false)
  /\ (forall e, StorageUri._parse_uri uri = inl e -> e = ValueError).
Proof.
  split; [split|].
  - unfold StorageUri._parse_uri.
    destruct (Py.startswith uri "s3://") eqn:Hs; cbn [negb]; [|done].
    apply startswith_s3 in Hs.
    destruct (StorageUri.split_once "/" (StorageUri.drop 5 uri)) as [b [k|]] eqn:E;
      [|by intros [=]].
    intros [= <- <-]. apply split_once_some in E as [E Hc].
    split; [|done]. rewrite Hs at 1. by rewrite E.
  - intros [-> Hc]. unfold StorageUri._parse_uri.
    rewrite startswith_app.
    change (StorageUri.drop 5 ("s3://" +:+ bucket +:+ "/" +:+ key))
      with (bucket +:+ String "/" key).
    simpl negb. cbv iota. by rewrite split_once_found.
  - intros e. unfold StorageUri._parse_uri.
    destruct (negb _); [by intros [= <-]|].
    destruct (StorageUri.split_once _ _) as [b [k|]]; [done | by intros [= <-]].
Qed.

(** X11. [from_uri] makes a local file storage of every URI that does not
    start with [s3://], with the URI as its path, and of no other URI; it
    makes an S3 storage with the bucket and the key of a URI
    [s3://bucket/key], and raises [ValueError] on [s3://bucket], where no
    slash follows the bucket. *)
Theorem from_uri_dispatch (uri : string) :
  (Py.startswith uri "s3://" = false -> StorageUri.from_uri uri = inr (StorageUri.Local uri))
  /\ (forall bucket key,
        Py.contains "/" bucket = false ->
        StorageUri.from_uri ("s3://" +:+ bucket +:+ "/" +:+ key)
        = inr (StorageUri.S3 bucket key))
  /\ (forall bucket,
        Py.contains "/" bucket = false ->
        StorageUri.from_uri ("s3://" +:+ bucket) = inl ValueError)
  /\ (forall path, StorageUri.from_uri uri = inr (StorageUri.Local path) ->
        path = uri /\ Py.startswith uri "s3://" = false).
Proof.
  split; [|split; [|split]].
  - unfold StorageUri.from_uri. by intros ->.
  - intros bucket key Hc. unfold StorageUri.from_uri, StorageUri._parse_uri.
    rewrite startswith_app.
    change (StorageUri.drop 5 ("s3://" +:+ bucket +:+ "/" +:+ key))
      with (bucket +:+ String "/" key).
    simpl negb. cbv iota. by rewrite split_once_found.
  - intros bucket Hc. unfold StorageUri.from_uri, StorageUri._parse_uri.
    rewrite startswith_app.
    change (StorageUri.drop 5 ("s3://" +:+ bucket)) with bucket.
    simpl negb. cbv iota. by rewrite split_once_none.
  - intros path. unfold StorageUri.from_uri.
    destruct (Py.startswith uri "s3://"); [|by intros [= <-]].
    by destruct (StorageUri._parse_uri uri) as [e|[b k]].
Qed.
End StorageUriFacts.

(** ** The backends between a write and a flush *)

Section BackendFacts.
Implicit Types (l rest cur : string) (ls : list string).

Lemma plain_app (a b : string) :
  TextIO.plain a = true -> TextIO.plain b = true -> TextIO.plain (a +:+ b) = true.
Proof.
  intros Ha Hb. induction a as [|c a IH]; [done|].
  rewrite append_cons.
  change (TextIO.plain (String c (a +:+ b)))
    with (Nat.leb 32 (nat_of_ascii c) && Nat.leb (nat_of_ascii c) 126 && TextIO.plain (a +:+ b)).
  change (TextIO.plain (String c a))
    with (Nat.leb 32 (nat_of_ascii c) && Nat.leb (nat_of_ascii c) 126 && TextIO.plain a) in Ha.
  apply andb_true_iff in Ha as [-> Ha]. by rewrite IH.
Qed.

Lemma split_go_lines_then breaks (universal : bool) ls rest :
  (forall c, breaks c = true -> (nat_of_ascii c < 32)%nat) ->
  breaks TextIO.LF = true ->
  Forall (fun l => TextIO.plain l = true) ls ->
  TextIO.split_go breaks universal EmptyString
    (TextIO.join (map (fun l => l +:+ String TextIO.LF EmptyString) ls) +:+ rest)
  = map (fun l => l +:+ String TextIO.LF EmptyString) ls ++ TextIO.split_go breaks universal EmptyString rest.
Proof.
  intros Hlow Hlf Hall. induction Hall as [|l ls Hl _ IH]; simpl; [done|].
  rewrite !append_assoc, append_cons, append_nil_l.
  rewrite split_go_line by done. simpl. by rewrite IH.
Qed.

Lemma split_go_last breaks (universal : bool) l :
  (forall c, breaks c = true -> (nat_of_ascii c < 32)%nat) ->
  breaks TextIO.LF = true ->
  TextIO.plain l = true ->
  TextIO.split_go breaks universal EmptyString (l +:+ String TextIO.LF EmptyString) = [l +:+ String TextIO.LF EmptyString].
Proof. intros Hlow Hlf Hl. by rewrite split_go_line. Qed.

Lemma lines_breaks (c : ascii) :
  bool_decide (c = TextIO.LF) = true -> (nat_of_ascii c < 32)%nat.
Proof. intros ->%bool_decide_eq_true. vm_compute. lia. Qed.

Lemma splitlines_breaks (c : ascii) :
  (let n := nat_of_ascii c in
   bool_decide (c = TextIO.LF) || (Nat.leb 11 n && Nat.leb n 12)
   || (Nat.leb 28 n && Nat.leb n 30)) = true ->
  (nat_of_ascii c < 32)%nat.
Proof.
  intros Hc. apply orb_true_iff in Hc as [Hc%orb_true_iff | Hc].
  - destruct Hc as [Hc%bool_decide_eq_true | Hc].
    + subst c. vm_compute. lia.
    + apply andb_true_iff in Hc as [_ Hc%Nat.leb_le]. lia.
  - apply andb_true_iff in Hc as [_ Hc%Nat.leb_le]. lia.
Qed.


(** X13. When the log ends in a line without its line feed, as after a
    crash in the middle of a write, the next record written and flushed is
    read as one line together with that rest: the lines before are read
    as they were, and the last line is the rest followed by the record.
    With an empty rest the record is a line of its own.  This holds for
    both backends. *)
Theorem appended_line_joins_partial ls (partial l : string) :
  Forall (fun l => TextIO.plain l = true) ls ->
  TextIO.plain partial = true -> TextIO.plain l = true ->
  let text := TextIO.join (map (fun l => l +:+ String TextIO.LF EmptyString) ls) +:+ partial in
  read (flush (write (l +:+ String TextIO.LF EmptyString) (LocalFileStorage.mk (Some text) None)))
  = map (fun l => l +:+ String TextIO.LF EmptyString) ls ++ [(partial +:+ l) +:+ String TextIO.LF EmptyString]
  /\ read (flush (write (l +:+ String TextIO.LF EmptyString) (S3Storage.mk (Some text) [])))
     = map (fun l => l +:+ String TextIO.LF EmptyString) ls ++ [(partial +:+ l) +:+ String TextIO.LF EmptyString].
Proof.
  intros Hls Hp Hl text.
  pose proof (plain_app _ _ Hp Hl) as Hpl.
  split.
  - simpl. unfold LocalFileStorage.read. simpl. unfold TextIO.lines. subst text.
    rewrite !append_assoc.
    rewrite split_go_lines_then by (done || apply lines_breaks).
    f_equal. rewrite <- append_assoc. apply split_go_last; (done || apply lines_breaks).
  - simpl. unfold S3Storage.read, S3Storage.flush. simpl.
    unfold TextIO.splitlines_keepends. subst text.
    rewrite append_nil_r, !append_assoc.
    rewrite split_go_lines_then by (done || apply splitlines_breaks).
    f_equal. rewrite <- append_assoc. apply split_go_last; (done || apply splitlines_breaks).
Qed.
End BackendFacts.

(** ** The checkpoint log between flushes and across runs *)

Section ManagerFacts.
Context `{JsonLib} `{PydanticLib} {S : Type} `{CheckpointStorage S}.
Implicit Types (m : CheckpointManager.t S) (page : Page.t).

Lemma unflushed_go_snoc (acc : nat) (cs : list storage_call) (c : storage_call) :
  unflushed_go acc (cs ++ [c])
  = match c with CallWrite _ => Datatypes.S (unflushed_go acc cs) | _ => O end.
Proof.
  revert acc. induction cs as [|c' cs IH]; intros acc; simpl.
  - by destruct c.
  - by destruct c'; rewrite IH.
Qed.

Lemma unflushed_write (cs : list storage_call) (d : string) :
  unflushed (cs ++ [CallWrite d]) = Datatypes.S (unflushed cs).
Proof. apply unflushed_go_snoc. Qed.

Lemma unflushed_flush (cs : list storage_call) : unflushed (cs ++ [CallFlush]) = O.
Proof. apply unflushed_go_snoc. Qed.

Lemma manager_step_bound m (o : manager_op) :
  1 <= CheckpointManager.flush_interval m ->
  Z.of_nat (unflushed (CheckpointManager.calls m))
    <= CheckpointManager._page_count m mod CheckpointManager.flush_interval m ->
  let m' := manager_step m o in
  CheckpointManager.flush_interval m' = CheckpointManager.flush_interval m
  /\ Z.of_nat (unflushed (CheckpointManager.calls m'))
     <= CheckpointManager._page_count m' mod CheckpointManager.flush_interval m'.
Proof.
  intros Hk Hb. destruct o as [start_url config now|page|snap]; simpl.
  - split; [done|]. rewrite unflushed_flush.
    apply Z.mod_pos_bound. lia.
  - destruct (write_page_calls m page ltac:(lia)) as (_ & Hc & Hi & Hcalls).
    split; [done|]. rewrite Hcalls, Hc, Hi. unfold flush_due.
    case_bool_decide as Hr.
    + rewrite (app_assoc _ [_] [CallFlush] : _ ++ [_; CallFlush] = _), unflushed_flush. lia.
    + rewrite unflushed_write.
      pose proof (Z.mod_pos_bound (CheckpointManager._page_count m)
                    (CheckpointManager.flush_interval m) ltac:(lia)).
      pose proof (Z.mod_pos_bound (CheckpointManager._page_count m + 1)
                    (CheckpointManager.flush_interval m) ltac:(lia)).
      assert ((CheckpointManager._page_count m + 1) mod CheckpointManager.flush_interval m
              = CheckpointManager._page_count m mod CheckpointManager.flush_interval m + 1)
        as ->; [|lia].
      pose proof (Z.div_mod (CheckpointManager._page_count m)
                    (CheckpointManager.flush_interval m) ltac:(lia)) as Hdm.
      pose proof (Z.div_mod (CheckpointManager._page_count m + 1)
                    (CheckpointManager.flush_interval m) ltac:(lia)) as Hdm'.
      symmetry.
      apply (Z.mod_unique_pos _ _
               (CheckpointManager._page_count m / CheckpointManager.flush_interval m));
        [|lia].
      split; [lia|].
      destruct (decide (CheckpointManager._page_count m mod CheckpointManager.flush_interval m + 1
                        = CheckpointManager.flush_interval m)) as [E|]; [|lia].
      exfalso. apply Hr.
      replace (CheckpointManager._page_count m + 1)
        with (0 + (CheckpointManager._page_count m / CheckpointManager.flush_interval m + 1)
                  * CheckpointManager.flush_interval m) by lia.
      by rewrite Z.mod_add by lia.
  - split; [done|]. rewrite unflushed_flush.
    apply Z.mod_pos_bound. lia.
Qed.

(** X14. Fewer writes than the flush interval are ever pending: over any
    calls of [write_metadata], [write_page] and [write_state] on a new
    manager with a flush interval of at least 1, the writes made since the
    last flush number at most the count of pages modulo the interval. *)
Theorem unflushed_below_interval (storage : S) (interval : Z) (ops : list manager_op) :
  1 <= interval ->
  let m := manager_run (CheckpointManager.init storage interval) ops in
  Z.of_nat (unflushed (CheckpointManager.calls m))
    <= CheckpointManager._page_count m mod interval
  /\ Z.of_nat (unflushed (CheckpointManager.calls m)) < interval.
Proof.
  intros Hk m.
  assert (CheckpointManager.flush_interval m = interval
          /\ Z.of_nat (unflushed (CheckpointManager.calls m))
             <= CheckpointManager._page_count m mod CheckpointManager.flush_interval m)
    as [Hi Hb].
  { subst m. unfold manager_run.
    assert (CheckpointManager.flush_interval (CheckpointManager.init storage interval)
            = interval) as Hi0 by done.
    assert (Z.of_nat (unflushed (CheckpointManager.calls
                                   (CheckpointManager.init storage interval)))
            <= CheckpointManager._page_count (CheckpointManager.init storage interval)
               mod CheckpointManager.flush_interval (CheckpointManager.init storage interval))
      as Hb0 by (simpl; rewrite Z.mod_0_l by lia; done).
    revert Hi0 Hb0. generalize (CheckpointManager.init storage interval).
    induction ops as [|o ops IH]; intros m0 Hi0 Hb0; simpl; [done|].
    destruct (manager_step_bound m0 o ltac:(lia) Hb0) as [Hi1 Hb1].
    apply IH; [congruence | done]. }
  rewrite Hi in Hb. split; [done|].
  pose proof (Z.mod_pos_bound (CheckpointManager._page_count m) interval ltac:(lia)). lia.
Qed.

Lemma load_line_after (acc : Loaded.t) (line : string) :
  CheckpointManager.load_line acc line
  = loaded_after acc (CheckpointManager.load_line Loaded.empty line).
Proof.
  rewrite !load_line_replay.
  destruct acc as [md ps st]. unfold loaded_after.
  destruct (CheckpointManager.record_of_line line) as [[d|p|d]|]; simpl;
    rewrite ?app_nil_r; done.
Qed.

Lemma loaded_after_assoc (a b c : Loaded.t) :
  loaded_after (loaded_after a b) c = loaded_after a (loaded_after b c).
Proof.
  destruct a as [ma pa sa], b as [mb pb sb], c as [mc pc sc].
  unfold loaded_after. simpl. rewrite app_assoc.
  by destruct mc, sc.
Qed.

Lemma fold_load_line_after (lines : list string) (acc : Loaded.t) :
  fold_left CheckpointManager.load_line lines acc
  = loaded_after acc (fold_left CheckpointManager.load_line lines Loaded.empty).
Proof.
  revert acc. induction lines as [|line lines IH]; intros acc; simpl.
  - destruct acc. unfold loaded_after. simpl. by rewrite app_nil_r.
  - rewrite IH, (IH (CheckpointManager.load_line Loaded.empty line)).
    by rewrite load_line_after, loaded_after_assoc.
Qed.

(** X15. The loop of [load] over a log that continues another gives the
    pages of both, those of the earlier log first, and the metadata and
    the snapshot of the later log where it has them, otherwise those of
    the earlier one. *)
Theorem load_of_continued_log (earlier later : list string) :
  fold_left CheckpointManager.load_line (earlier ++ later) Loaded.empty
  = loaded_after (fold_left CheckpointManager.load_line earlier Loaded.empty)
      (fold_left CheckpointManager.load_line later Loaded.empty).
Proof. by rewrite fold_left_app, fold_load_line_after. Qed.
End ManagerFacts.

(** ** The worker loop *)

Ltac no_page :=
  split; [done|]; exists [], []; rewrite ?app_nil_r;
  repeat split; [simpl; lia | constructor].

Ltac one_page links :=
  split; [done|]; eexists [_], links;
  repeat split; [simpl; lia | constructor; [done | constructor]].

Section WorkerFacts.
Context `{UrlLib} `{JsonLib} `{PydanticLib} `{Collaborators}
        {S : Type} `{CheckpointStorage S}.
Implicit Types (c : Crawler.t S) (m : CheckpointManager.t S) (sch : Scheduler.t).

(** What the body of the [try] leaves, however it ends: the pages it had
    and at most one more, for the URL and at the depth it was given, and
    the scheduler after [add] for some of the links at the next depth. *)
Lemma worker_try_shape c (url : string) (depth : Z) (now : string) :
  let c' := (Crawler._worker_try url depth now c).1 in
  Crawler.config c' = Crawler.config c
  /\ exists (added : list Page.t) (links : list string),
       Crawler.pages c' = Crawler.pages c ++ added
       /\ (length added <= 1)%nat
       /\ Forall (fun page => Page.url page = url /\ Page.depth page = depth) added
       /\ Crawler.scheduler c'
          = fold_left (fun sch link => Scheduler.add sch link (depth + 1))
              links (Crawler.scheduler c).
Proof.
  destruct c as [cfg sch ps cm lg].
  unfold Crawler._worker_try. eff_unfold. cbn [fst snd].
  destruct (fetch url) as [e|[content status]]; cbn; [no_page|].
  destruct (parse content url) as [e|parsed]; cbn; [no_page|].
  destruct (CrawlConfig.extract_text cfg) eqn:Ex; cbn.
  - destruct (extract content url) as [e|text]; cbn; rewrite ?Ex; cbn; [no_page|].
    unfold Crawler.checkpoint_write_page. cbn -[CheckpointManager.write_page].
    destruct cm as [m|]; cbn -[CheckpointManager.write_page].
    + destruct (CheckpointManager.write_page _ m) as [m' [e|[]]]; cbn.
      * one_page (@nil string).
      * one_page (Parsed.links parsed).
    + one_page (Parsed.links parsed).
  - rewrite ?Ex; cbn.
    unfold Crawler.checkpoint_write_page. cbn -[CheckpointManager.write_page].
    destruct cm as [m|]; cbn -[CheckpointManager.write_page].
    + destruct (CheckpointManager.write_page _ m) as [m' [e|[]]]; cbn.
      * one_page (@nil string).
      * one_page (Parsed.links parsed).
    + one_page (Parsed.links parsed).
Qed.

(** One turn: what becomes of the configuration, the pages and the
    scheduler, and when the loop is left. *)
Lemma worker_turn_shape c (now : string) :
  let c' := (Crawler._worker_turn now c).1 in
  Crawler.config c' = Crawler.config c
  /\ ((Crawler.pages c' = Crawler.pages c /\ Crawler.scheduler c' = Crawler.scheduler c)
      \/ (Z.of_nat (length (Crawler.pages c)) < CrawlConfig.max_pages (Crawler.config c)
          /\ exists url depth rest added links,
               Scheduler.queue (Crawler.scheduler c) = (url, depth) :: rest
               /\ Crawler.pages c' = Crawler.pages c ++ added
               /\ (length added <= 1)%nat
               /\ Forall (fun page => Page.url page = url /\ Page.depth page = depth) added
               /\ Crawler.scheduler c'
                  = fold_left (fun sch link => Scheduler.add sch link (depth + 1))
                      links (Scheduler.set_queue rest (Crawler.scheduler c))))
  /\ ((Crawler._worker_turn now c).2 = Break ->
      c' = c
      /\ (Z.of_nat (length (Crawler.pages c)) >= CrawlConfig.max_pages (Crawler.config c)
          \/ (Scheduler.queue (Crawler.scheduler c) = [] /\ Crawler.pages c <> []))).
Proof.
  unfold Crawler._worker_turn.
  case_bool_decide as Hb; cbn [fst snd].
  { split; [done|]. split; [by left|]. intros _. split; [done|]. by left. }
  unfold Scheduler.get.
  destruct (Scheduler.queue (Crawler.scheduler c)) as [|[url depth] rest] eqn:Hq.
  - unfold Scheduler.is_empty. rewrite Hq. cbn [length].
    rewrite bool_decide_eq_true_2 by done. rewrite andb_true_l.
    case_bool_decide as Hp; cbn [fst snd].
    + split; [done|]. split; [by left|]. intros _. split; [done|]. right.
      split; [done|]. intros E. rewrite E in Hp. simpl in Hp. lia.
    + split; [done|]. split; [by left|]. done.
  - pose proof (worker_try_shape
                  (Crawler.set_scheduler (Scheduler.set_queue rest (Crawler.scheduler c)) c)
                  url depth now) as (Hcfg & added & links & Hp & Hlen & Hall & Hs).
    destruct (Crawler._worker_try url depth now _) as [c1 [e|[]]]; cbn [fst snd] in *.
    + split; [done|]. split; [|done]. right. split; [lia|].
      exists url, depth, rest, added, links. done.
    + split; [done|]. split; [|done]. right. split; [lia|].
      exists url, depth, rest, added, links. done.
Qed.

Lemma worker_shape (clock : nat -> string) (fuel : nat) c c' :
  Crawler._worker clock fuel c = Some c' ->
  Crawler.config c' = Crawler.config c
  /\ (exists added, Crawler.pages c' = Crawler.pages c ++ added)
  /\ Z.of_nat (length (Crawler.pages c'))
     <= Z.max (Z.of_nat (length (Crawler.pages c))) (CrawlConfig.max_pages (Crawler.config c))
  /\ (Z.of_nat (length (Crawler.pages c')) >= CrawlConfig.max_pages (Crawler.config c)
      \/ (Scheduler.queue (Crawler.scheduler c') = [] /\ Crawler.pages c' <> [])).
Proof.
  revert c. induction fuel as [|fuel IH]; intros c; simpl; [done|].
  pose proof (worker_turn_shape c (clock fuel)) as (Hcfg & Hstep & Hbreak).
  destruct (Crawler._worker_turn (clock fuel) c) as [c1 [|]]; cbn [fst snd] in *.
  - intros Hrun. destruct (IH c1 Hrun) as (Hcfg' & (added' & Hp') & Hle & Hend).
    rewrite Hcfg in *.
    split; [done|].
    assert (exists added, Crawler.pages c1 = Crawler.pages c ++ added
              /\ Z.of_nat (length (Crawler.pages c1))
                 <= Z.max (Z.of_nat (length (Crawler.pages c)))
                      (CrawlConfig.max_pages (Crawler.config c)))
      as (added & Hp & Hle1).
    { destruct Hstep as [[Hp _] | (Hlt & url & depth & rest & added & links & _ & Hp & Hlen & _)].
      - exists []. rewrite app_nil_r, Hp. split; [done | lia].
      - exists added. split; [done|]. rewrite Hp, length_app. lia. }
    split; [exists (added ++ added'); by rewrite Hp', Hp, app_assoc|].
    split; [lia | done].
  - intros [= <-]. destruct (Hbreak eq_refl) as [-> Hend].
    split; [done|]. split; [exists []; by rewrite app_nil_r|].
    split; [lia | done].
Qed.


(** X18. A worker leaves its loop only when the pages number at least
    [max_pages], or when the queue is empty and there is at least one
    page. *)
Theorem worker_leaves_when_done (clock : nat -> string) (fuel : nat) c c' :
  Crawler._worker clock fuel c = Some c' ->
  Z.of_nat (length (Crawler.pages c')) >= CrawlConfig.max_pages (Crawler.config c)
  \/ (Scheduler.queue (Crawler.scheduler c') = [] /\ Crawler.pages c' <> []).
Proof. intros Hrun. by destruct (worker_shape clock fuel c c' Hrun) as (_ & _ & _ & ?). Qed.

Lemma worker_idles (clock : nat -> string) (fuel : nat) c :
  1 <= CrawlConfig.max_pages (Crawler.config c) ->
  Scheduler.queue (Crawler.scheduler c) = [] -> Crawler.pages c = [] ->
  Crawler._worker clock fuel c = None.
Proof.
  intros Hmax Hq Hp. induction fuel as [|fuel IH]; simpl; [done|].
  unfold Crawler._worker_turn. rewrite Hp. cbn [length].
  rewrite bool_decide_eq_false_2 by lia.
  unfold Scheduler.get, Scheduler.is_empty. rewrite Hq. cbn [length].
  rewrite (bool_decide_eq_false_2 (0 < 0)%nat) by lia.
  rewrite andb_false_r. exact IH.
Qed.

(** X19. A crawl that does not resume and whose start URL cannot be
    fetched, or is rejected by the filter, never leaves the loop of its
    worker, whatever the number of turns: after the first turn the queue
    is empty and there is no page, and the loop leaves on an empty queue
    only when there is a page.  [max_pages] is at least 1, as the
    configuration requires. *)
Theorem crawl_never_ends_without_first_page (config : option CrawlConfig.t)
    (url_filter : option CombinedFilter.t) (cm : option (CheckpointManager.t S))
    (start_url : string) (now : string) (e : exn) :
  let cfg := default CrawlConfig.defaults config in
  let seed := Scheduler.init (CrawlConfig.max_depth cfg)
                (CrawlConfig.follow_external cfg) url_filter in
  1 <= CrawlConfig.max_pages cfg ->
  fetch start_url = inl e \/ Scheduler.filter_rejects seed start_url ->
  forall (clock : nat -> string) (fuel : nat),
    Crawler._worker clock fuel
      (Eff.exec (Crawler.crawl_begin start_url false now)
         (Crawler.init config url_filter cm)) = None.
Proof.
  intros cfg seed Hmax Hfail clock fuel.
  set (c0 := Eff.exec (Crawler.crawl_begin start_url false now)
               (Crawler.init config url_filter cm)).
  assert (Crawler.config c0 = cfg /\ Crawler.pages c0 = []
          /\ Crawler.scheduler c0 = Scheduler.add seed start_url 0) as (Hcfg & Hp & Hs).
  { subst c0. unfold Crawler.crawl_begin, Crawler.init. eff_unfold. cbn.
    by destruct cm. }
  destruct (add_queue_cases seed start_url 0) as [Hq | [_ Hq]].
  { apply worker_idles; [by rewrite Hcfg | by rewrite Hs, Hq | done]. }
  change (Scheduler.queue seed) with (@nil (string * Z)) in Hq. cbn [app] in Hq.
  destruct Hfail as [Hfetch | Hrej%filter_rejects_decide].
  - destruct fuel as [|fuel]; [done|]. simpl.
    unfold Crawler._worker_turn. rewrite Hp, Hcfg. cbn [length].
    rewrite bool_decide_eq_false_2 by lia.
    unfold Scheduler.get. rewrite Hs, Hq.
    rewrite (worker_try_fails _ start_url 0 (clock fuel) e) by (by left).
    apply worker_idles;
      [change (1 <= CrawlConfig.max_pages (Crawler.config c0)); by rewrite Hcfg
      | done | exact Hp].
  - exfalso. rewrite add_cases in Hq. cbv zeta in Hq. rewrite Hrej in Hq.
    repeat (match type of Hq with context [if ?b then _ else _] => destruct b end);
      by unfold Scheduler.anchored in Hq.
Qed.








End WorkerFacts.

(** ** The end of a crawl and the restore of its snapshot *)

Section ResumeFacts.
Context `{UrlLib} `{JsonLib} `{PydanticLib} `{Collaborators}
        {S : Type} `{CheckpointStorage S}.
Implicit Types (c : Crawler.t S) (m : CheckpointManager.t S) (sch : Scheduler.t).

Lemma strings_of_strs (l : list string) : Crawler.strings_of (map JStr l) = inr l.
Proof. induction l as [|x l IH]; simpl; [done | by rewrite IH]. Qed.

Lemma items_of_pairs (q : list (string * Z)) :
  Crawler.items_of (map (fun item => JList [JStr item.1; JInt item.2]) q) = inr q.
Proof. induction q as [|[u d] q IH]; simpl; [done | by rewrite IH]. Qed.

Lemma restore_visited sch (urls : list string) :
  fold_left (fun sch u => Scheduler.set_visited (Scheduler.visited sch ∪ {[u]}) sch) urls sch
  = Scheduler.set_visited (Scheduler.visited sch ∪ list_to_set urls) sch.
Proof.
  revert sch. induction urls as [|u urls IH]; intros sch; simpl.
  - destruct sch. unfold Scheduler.set_visited. simpl. f_equal. set_solver.
  - rewrite IH. unfold Scheduler.set_visited. simpl. f_equal. set_solver.
Qed.

Lemma restore_filtered sch (urls : list string) :
  fold_left (fun sch u => Scheduler.set_filtered (Scheduler.filtered sch ∪ {[u]}) sch) urls sch
  = Scheduler.set_filtered (Scheduler.filtered sch ∪ list_to_set urls) sch.
Proof.
  revert sch. induction urls as [|u urls IH]; intros sch; simpl.
  - destruct sch. unfold Scheduler.set_filtered. simpl. f_equal. set_solver.
  - rewrite IH. unfold Scheduler.set_filtered. simpl. f_equal. set_solver.
Qed.

Lemma restore_queue sch (items : list (string * Z)) :
  fold_left (fun sch item => Scheduler.set_queue (Scheduler.queue sch ++ [item]) sch) items sch
  = Scheduler.set_queue (Scheduler.queue sch ++ items) sch.
Proof.
  revert sch. induction items as [|item items IH]; intros sch; simpl.
  - destruct sch. unfold Scheduler.set_queue. simpl. by rewrite app_nil_r.
  - rewrite IH. unfold Scheduler.set_queue. simpl. by rewrite <- app_assoc.
Qed.

Lemma state_record_fields (visited filtered : gset string)
    (queue : list (string * Z)) (now : string) :
  let st := CheckpointManager.state_record visited queue filtered now in
  Crawler.list_field "visited" st = inr (map JStr (elements visited))
  /\ Crawler.list_field "filtered" st = inr (map JStr (elements filtered))
  /\ Crawler.list_field "queue" st
     = inr (map (fun item => JList [JStr item.1; JInt item.2]) queue).
Proof. done. Qed.

(** What [restore_state] makes of a crawler on the record of a snapshot. *)
Lemma restore_state_written c (visited filtered : gset string)
    (queue : list (string * Z)) (now : string) :
  let sch := Crawler.scheduler c in
  let restored :=
    Scheduler.set_queue (Scheduler.queue sch ++ queue)
      (Scheduler.set_filtered (Scheduler.filtered sch ∪ filtered)
         (Scheduler.set_visited (Scheduler.visited sch ∪ visited) sch)) in
  exists domain,
    Crawler.restore_state
      (CheckpointManager.state_record visited queue filtered now) c
    = (Crawler.mk (Crawler.config c) (Scheduler.set_start_domain domain restored)
         (Crawler.pages c) (Crawler.checkpoint_manager c)
         (Crawler.log c ++ ["checkpoint_state_restored"]),
       inr tt)
    /\ (Scheduler.visited sch ∪ visited = ∅ -> Scheduler.queue sch ++ queue = [] ->
        domain = Scheduler.start_domain sch)
    /\ (Scheduler.visited sch ∪ visited <> ∅ ->
        exists u, u ∈ Scheduler.visited sch ∪ visited /\ domain = Some (netloc u)).
Proof.
  intros sch restored. subst restored.
  destruct (state_record_fields visited filtered queue now) as (Ev & Ef & Eq).
  unfold Crawler.restore_state. eff_unfold.
  rewrite Ev, Ef, Eq, !strings_of_strs, items_of_pairs.
  cbn [Crawler.scheduler Crawler.set_scheduler Crawler.config Crawler.pages
       Crawler.checkpoint_manager Crawler.log Crawler.logger].
  rewrite restore_visited, restore_filtered, restore_queue.
  rewrite !list_to_set_elements_L.
  fold sch. cbn [Scheduler.filtered Scheduler.set_visited Scheduler.queue
                 Scheduler.set_filtered Scheduler.visited Scheduler.set_queue].
  destruct (decide (Scheduler.visited sch ∪ visited = ∅)) as [Ee|Hne].
  - rewrite (bool_decide_eq_true_2 _ Ee). cbn [negb]. rewrite orb_false_r.
    destruct (Scheduler.queue sch ++ queue) as [|[u d] rest] eqn:Eqq; cbn [Py.truthy].
    + exists (Scheduler.start_domain sch). split; [|split; [done|by intros []]].
      destruct c as [cfg sch0 ps cm lg]. subst sch. by destruct sch0.
    + exists (Some (netloc match elements (Scheduler.visited sch ∪ visited) with
                              | [] => u
                              | u0 :: _ => u0
                              end)).
      split; [|split; [done | by intros []]].
      by destruct c as [cfg sch0 ps cm lg].
  - rewrite (bool_decide_eq_false_2 _ Hne). cbn [negb]. rewrite orb_true_r.
    destruct (elements (Scheduler.visited sch ∪ visited)) as [|u rest] eqn:El.
    { apply elements_empty_inv in El. by apply leibniz_equiv in El. }
    exists (Some (netloc u)). split; [|split; [done|]].
    + by destruct c as [cfg sch0 ps cm lg].
    + intros _. exists u. split; [|done].
      apply elem_of_elements. rewrite El. by left.
Qed.

(** X21. [restore_state] on the record that [write_state] builds from a
    visited set, a queue and a filtered set ends without an exception and
    adds exactly these to the scheduler: the two sets by union, the queue
    at the back and as it stands, with no check of depth, scope or filter.
    The limits of the scheduler, the pages, the configuration and the
    checkpoint manager are as before. *)
Theorem restore_state_round_trip c (visited filtered : gset string)
    (queue : list (string * Z)) (now : string) :
  let r := Crawler.restore_state
             (CheckpointManager.state_record visited queue filtered now) c in
  let sch := Crawler.scheduler c in
  let sch' := Crawler.scheduler r.1 in
  r.2 = inr tt
  /\ Scheduler.visited sch' = Scheduler.visited sch ∪ visited
  /\ Scheduler.filtered sch' = Scheduler.filtered sch ∪ filtered
  /\ Scheduler.queue sch' = Scheduler.queue sch ++ queue
  /\ Scheduler.max_depth sch' = Scheduler.max_depth sch
  /\ Scheduler.follow_external sch' = Scheduler.follow_external sch
  /\ Scheduler.url_filter sch' = Scheduler.url_filter sch
  /\ Crawler.pages r.1 = Crawler.pages c
  /\ Crawler.config r.1 = Crawler.config c
  /\ Crawler.checkpoint_manager r.1 = Crawler.checkpoint_manager c.
Proof.
  intros r sch sch'.
  destruct (restore_state_written c visited filtered queue now) as (domain & Hr & _).
  subst sch' r. rewrite Hr. done.
Qed.

Lemma run_in_scope max_depth url_filter (ops : list Scheduler.op) :
  Frontier.in_scope (Scheduler.run (Scheduler.init max_depth false url_filter) ops).
Proof. apply in_scope_run; [done|]. intros u. simpl. set_solver. Qed.

(** X22. When the frontier of a scheduler that does not follow external
    links, with at least one visited URL, is saved and restored into a new
    crawler, the restored scheduler has the start domain of the saved one,
    whichever visited URL the restore takes it from, and the visited set,
    the filtered set and the queue of the saved one. *)
Theorem restored_start_domain max_depth url_filter (first : string) (depth : Z)
    (ops : list Scheduler.op) (config : option CrawlConfig.t)
    (flt : option CombinedFilter.t) (cm : option (CheckpointManager.t S)) (now : string) :
  let s := Scheduler.run (Scheduler.init max_depth false url_filter)
             (Scheduler.Add first depth :: ops) in
  Scheduler.visited s <> ∅ ->
  let c' := Eff.exec
              (Crawler.restore_state
                 (CheckpointManager.state_record (Scheduler.visited s)
                    (Scheduler.queue s) (Scheduler.filtered s) now))
              (Crawler.init config flt cm) in
  Scheduler.start_domain (Crawler.scheduler c') = Scheduler.start_domain s
  /\ Scheduler.visited (Crawler.scheduler c') = Scheduler.visited s
  /\ Scheduler.filtered (Crawler.scheduler c') = Scheduler.filtered s
  /\ Scheduler.queue (Crawler.scheduler c') = Scheduler.queue s.
Proof.
  intros s Hne c'.
  destruct (restore_state_written (Crawler.init config flt cm) (Scheduler.visited s)
              (Scheduler.filtered s) (Scheduler.queue s) now)
    as (domain & Hr & _ & Hd).
  subst c'. unfold Eff.exec. rewrite Hr.
  cbn [fst Crawler.scheduler Crawler.init Scheduler.start_domain Scheduler.visited
       Scheduler.filtered Scheduler.queue Scheduler.set_start_domain Scheduler.set_queue
       Scheduler.set_filtered Scheduler.set_visited Scheduler.init app] in *.
  assert (∅ ∪ Scheduler.visited s = Scheduler.visited s) as Ev by set_solver.
  assert (∅ ∪ Scheduler.filtered s = Scheduler.filtered s) as Ef by set_solver.
  rewrite Ev in Hd. rewrite Ev, Ef.
  split; [|done].
  destruct (Hd Hne) as (u & Hu & ->).
  pose proof (run_in_scope max_depth url_filter (Scheduler.Add first depth :: ops) u
                (or_introl Hu)) as E.
  done.
Qed.
End ResumeFacts.

(** *** The end of a crawl *)

Section CrawlEndFacts.
Context `{UrlLib} `{JsonLib} `{PydanticLib} `{Collaborators}
        {S : Type} `{CheckpointStorage S}.
Variable L : StorageLaws S.
Implicit Types (c : Crawler.t S) (m : CheckpointManager.t S).

(** X16. At the end of a crawl with a checkpoint manager the storage
    receives one write, of the snapshot of the final frontier, then a
    flush, a second flush and the close; no write is left pending, and on
    a storage that keeps the contract all that was ever written, followed
    by that snapshot, is durable.  The pages and the scheduler are as
    before. *)
Theorem crawl_end_leaves_all_durable c m (now : string) :
  Crawler.checkpoint_manager c = Some m ->
  let sch := Crawler.scheduler c in
  let line := CheckpointManager.line_of
                (CheckpointManager.state_record (Scheduler.visited sch)
                   (Scheduler.queue sch) (Scheduler.filtered sch) now) in
  exists m',
    Crawler.checkpoint_manager (Crawler.crawl_end now c) = Some m'
    /\ CheckpointManager.calls m'
       = CheckpointManager.calls m ++ [CallWrite line; CallFlush; CallFlush; CallClose]
    /\ durable L (CheckpointManager.storage m')
       = total L (CheckpointManager.storage m) +:+ line
    /\ unflushed (CheckpointManager.calls m') = O
    /\ Crawler.pages (Crawler.crawl_end now c) = Crawler.pages c
    /\ Crawler.scheduler (Crawler.crawl_end now c) = Crawler.scheduler c.
Proof.
  intros Hcm sch line.
  unfold Crawler.crawl_end, Crawler._save_checkpoint_state. rewrite Hcm.
  cbn [Crawler.checkpoint_manager Crawler.set_checkpoint_manager Crawler.logger
       Crawler.pages Crawler.scheduler fmap option_fmap option_map].
  eexists. split; [reflexivity|].
  fold sch.
  unfold CheckpointManager.close_, CheckpointManager.write_state,
    CheckpointManager.storage_close, CheckpointManager.storage_flush,
    CheckpointManager.storage_write.
  cbn [CheckpointManager.calls CheckpointManager.storage].
  fold (CheckpointManager.line_of
          (CheckpointManager.state_record (Scheduler.visited sch)
             (Scheduler.queue sch) (Scheduler.filtered sch) now)).
  fold line.
  split; [by rewrite <- !app_assoc|].
  split.
  { rewrite (durable_close S L), !(durable_flush S L), !(pending_flush S L),
      (durable_write S L), (pending_write S L).
    unfold total. by rewrite !append_nil_r, append_assoc. }
  split; [|done].
  rewrite <- !app_assoc. cbn [app].
  rewrite (app_assoc _ [_; _; _] [CallClose] : _ ++ [_; _; _; CallClose] = _).
  apply unflushed_go_snoc.
Qed.
End CrawlEndFacts.

(** ** The fetcher *)

Section FetcherFacts.
Implicit Types (self : Fetcher.t) (network : nat -> response) (url : string).

Lemma requests_before (events : list fetch_event) r :
  Fetcher.requests (Fetcher.before events r).2
  = (Fetcher.requests events + Fetcher.requests r.2)%nat.
Proof.
  unfold Fetcher.before. cbn [snd].
  induction events as [|[u|n|ev] events IH]; simpl; [done | by rewrite IH | done..].
Qed.

Lemma slept_before (events : list fetch_event) r :
  Fetcher.slept (Fetcher.before events r).2
  = Fetcher.slept events + Fetcher.slept r.2.
Proof.
  unfold Fetcher.before. cbn [snd].
  induction events as [|[u|n|ev] events IH]; simpl; [done | done | lia | done].
Qed.

Lemma attempts_step self network url (attempt left : nat) :
  Fetcher.attempts self network url attempt (Datatypes.S left)
  = match network attempt with
    | Responded content status =>
        (inr (content, status), [Requested url; Logged "fetched_url"])
    | TimedOut =>
        if bool_decide (Z.of_nat attempt = Fetcher.max_retries self - 1)
        then (inl (Raised "TimeoutError"), [Requested url; Logged "timeout"])
        else Fetcher.before [Requested url; Logged "timeout"]
               (Fetcher.attempts self network url (Datatypes.S attempt) left)
    | ClientFailed e =>
        if bool_decide (Z.of_nat attempt = Fetcher.max_retries self - 1)
        then (inl e, [Requested url; Logged "fetch_error"])
        else Fetcher.before
               [Requested url; Logged "fetch_error"; Slept (2 ^ Z.of_nat attempt)]
               (Fetcher.attempts self network url (Datatypes.S attempt) left)
    | Failed e => (inl e, [Requested url])
    end.
Proof. done. Qed.

(** The loop never makes more requests than it has turns left. *)
Lemma attempts_requests self network url (attempt left : nat) :
  (Fetcher.requests (Fetcher.attempts self network url attempt left).2 <= left)%nat.
Proof.
  revert attempt. induction left as [|left IH]; intros attempt;
    [simpl; lia | rewrite attempts_step].
  pose proof (IH (Datatypes.S attempt)).
  destruct (network attempt) as [content status| |e|e];
    try case_bool_decide; rewrite ?requests_before; simpl; lia.
Qed.

(** The loop up to the first request that is answered. *)
Lemma attempts_answered self network url (content : string) (status : Z)
    (k attempt left : nat) :
  Z.of_nat (attempt + left) = Fetcher.max_retries self ->
  (k < left)%nat ->
  (forall j, (attempt <= j < attempt + k)%nat -> Fetcher.retried (network j)) ->
  network (attempt + k)%nat = Responded content status ->
  let r := Fetcher.attempts self network url attempt left in
  r.1 = inr (content, status)
  /\ Fetcher.requests r.2 = Datatypes.S k
  /\ 0 <= Fetcher.slept r.2 <= 2 ^ Z.of_nat (attempt + k) - 2 ^ Z.of_nat attempt.
Proof.
  revert attempt left. induction k as [|k IH]; intros attempt left Hn Hk Hre Hok.
  - destruct left as [|left]; [lia|]. rewrite attempts_step.
    rewrite Nat.add_0_r in Hok. rewrite Hok. simpl.
    rewrite Nat.add_0_r. repeat split; lia.
  - destruct left as [|left]; [lia|].
    assert (Fetcher.retried (network attempt)) as Hr by (apply Hre; lia).
    destruct (IH (Datatypes.S attempt) left) as (Hres & Hreq & Hsl).
    { lia. } { lia. } { intros j Hj. apply Hre. lia. }
    { by replace (Datatypes.S attempt + k)%nat with (attempt + Datatypes.S k)%nat by lia. }
    replace (Datatypes.S attempt + k)%nat with (attempt + Datatypes.S k)%nat in Hsl by lia.
    assert (2 ^ Z.of_nat (Datatypes.S attempt) = 2 * 2 ^ Z.of_nat attempt) as Hpow.
    { rewrite Nat2Z.inj_succ, Z.pow_succ_r by lia. done. }
    pose proof (Z.pow_pos_nonneg 2 (Z.of_nat attempt) ltac:(lia) ltac:(lia)).
    cbv zeta. rewrite attempts_step. destruct (network attempt) as [c s| |e|e]; try done.
    + rewrite bool_decide_eq_false_2 by lia.
      rewrite requests_before, slept_before. cbn [fst Fetcher.before].
      rewrite Hres, Hreq. simpl. repeat split; lia.
    + rewrite bool_decide_eq_false_2 by lia.
      rewrite requests_before, slept_before. cbn [fst Fetcher.before].
      rewrite Hres, Hreq. simpl. repeat split; lia.
Qed.

(** The loop when no request is answered. *)
Lemma attempts_exhausted self network url (attempt left : nat) :
  Z.of_nat (attempt + Datatypes.S left) = Fetcher.max_retries self ->
  (forall j, (attempt <= j <= attempt + left)%nat -> Fetcher.retried (network j)) ->
  let r := Fetcher.attempts self network url attempt (Datatypes.S left) in
  r.1 = inl (Fetcher.raises (network (attempt + left)%nat))
  /\ Fetcher.requests r.2 = Datatypes.S left
  /\ 0 <= Fetcher.slept r.2 <= 2 ^ Z.of_nat (attempt + left) - 2 ^ Z.of_nat attempt.
Proof.
  revert attempt. induction left as [|left IH]; intros attempt Hn Hre.
  - assert (Fetcher.retried (network attempt)) as Hr by (apply Hre; lia).
    cbv zeta. rewrite attempts_step, Nat.add_0_r.
    destruct (network attempt) as [c s| |e|e]; try done;
      rewrite bool_decide_eq_true_2 by lia; simpl; repeat split; lia.
  - assert (Fetcher.retried (network attempt)) as Hr by (apply Hre; lia).
    destruct (IH (Datatypes.S attempt)) as (Hres & Hreq & Hsl).
    { lia. } { intros j Hj. apply Hre. lia. }
    replace (Datatypes.S attempt + left)%nat with (attempt + Datatypes.S left)%nat in * by lia.
    assert (2 ^ Z.of_nat (Datatypes.S attempt) = 2 * 2 ^ Z.of_nat attempt) as Hpow.
    { rewrite Nat2Z.inj_succ, Z.pow_succ_r by lia. done. }
    pose proof (Z.pow_pos_nonneg 2 (Z.of_nat attempt) ltac:(lia) ltac:(lia)).
    cbv zeta. rewrite attempts_step.
    destruct (Fetcher.attempts self network url (Datatypes.S attempt) (Datatypes.S left))
      as [res evs].
    cbn [fst snd] in Hres, Hreq, Hsl.
    destruct (network attempt) as [c s| |e|e]; try done.
    + rewrite bool_decide_eq_false_2 by lia.
      rewrite requests_before, slept_before. cbn [fst snd Fetcher.before].
      rewrite Hres, Hreq. simpl. repeat split; lia.
    + rewrite bool_decide_eq_false_2 by lia.
      rewrite requests_before, slept_before. cbn [fst snd Fetcher.before].
      rewrite Hres, Hreq. simpl. repeat split; lia.
Qed.

(** X23. With a session, [fetch] returns the content and the status of
    the first request that is answered, when every request before it
    timed out or failed with a client error and it comes within
    [max_retries] requests; it has then made one request more than failed,
    and has slept less than two to the power of their number in all. *)
Theorem fetch_returns_first_answer self network url (content : string) (status : Z)
    (n : nat) :
  Fetcher._session self = true ->
  Z.of_nat n < Fetcher.max_retries self ->
  (forall j, (j < n)%nat -> Fetcher.retried (network j)) ->
  network n = Responded content status ->
  let r := Fetcher.fetch self network url in
  r.1 = inr (content, status)
  /\ Fetcher.requests r.2 = Datatypes.S n
  /\ 0 <= Fetcher.slept r.2 <= 2 ^ Z.of_nat n - 1.
Proof.
  intros Hs Hn Hre Hok. unfold Fetcher.fetch. rewrite Hs. cbn [negb].
  apply (attempts_answered self network url content status n O); [lia | lia | | done].
  intros j Hj. apply Hre. lia.
Qed.

(** X24. With a session, when each of the [max_retries] requests times
    out or fails with a client error, [fetch] raises what the last of them
    raised, after exactly [max_retries] requests; it does not sleep after
    the last request, and has slept less than two to the power of
    [max_retries - 1] in all. *)
Theorem fetch_gives_up_after_last_attempt self network url (n : nat) :
  Fetcher._session self = true ->
  Fetcher.max_retries self = Z.of_nat (Datatypes.S n) ->
  (forall j, (j <= n)%nat -> Fetcher.retried (network j)) ->
  let r := Fetcher.fetch self network url in
  r.1 = inl (Fetcher.raises (network n))
  /\ Fetcher.requests r.2 = Datatypes.S n
  /\ 0 <= Fetcher.slept r.2 <= 2 ^ Z.of_nat n - 1.
Proof.
  intros Hs Hn Hre. unfold Fetcher.fetch. rewrite Hs, Hn, Nat2Z.id. cbn [negb].
  apply (attempts_exhausted self network url O n); [lia|].
  intros j Hj. apply Hre. lia.
Qed.

(** X25. [fetch] never makes more than [max_retries] requests.  Without
    a session it raises at once, and so it does with a session when
    [max_retries] is not positive: no request is made.  An exception that
    is neither a timeout nor a client error is not retried: raised by the
    first request, it leaves [fetch] after that one request. *)
Theorem fetch_requests_bounded self network url :
  (Fetcher.requests (Fetcher.fetch self network url).2 <= Z.to_nat (Fetcher.max_retries self))%nat
  /\ (Fetcher._session self = false ->
      exists what, Fetcher.fetch self network url = (inl (Raised what), []))
  /\ (Fetcher._session self = true -> Fetcher.max_retries self <= 0 ->
      exists what, Fetcher.fetch self network url = (inl (Raised what), []))
  /\ (forall e, Fetcher._session self = true -> 1 <= Fetcher.max_retries self ->
      network O = Failed e ->
      Fetcher.fetch self network url = (inl e, [Requested url])).
Proof.
  unfold Fetcher.fetch. repeat split.
  - destruct (Fetcher._session self); simpl; [apply attempts_requests | lia].
  - intros ->. simpl. eauto.
  - intros -> Hn. simpl. replace (Z.to_nat (Fetcher.max_retries self)) with O by lia.
    simpl. eauto.
  - intros e -> Hn Hf. simpl.
    destruct (Z.to_nat (Fetcher.max_retries self)) as [|left] eqn:E; [lia|].
    simpl. by rewrite Hf.
Qed.
End FetcherFacts.

(** ** The links of a page *)

Section ParserFacts.
Context `{LinkLib}.
Implicit Types (base_url href u : string) (hrefs : list string).

Lemma before_fragment_clean (s : string) :
  Py.contains "#" (Parser.before_fragment s) = false.
Proof.
  induction s as [|c s IH]; simpl; [done|].
  destruct (decide (c = "#"%char)) as [->|Hne]; simpl; [done|].
  destruct (decide ("#"%char = c)) as [<-|_]; done.
Qed.

Lemma link_step_collected base_url (state : list string * gset string)
    (processed : list string) href :
  collected base_url processed state ->
  collected base_url (processed ++ [href]) (Parser.link_step base_url state href).
Proof.
  intros (Hnd & Hseen & Hin & Hsub).
  unfold collected, Parser.link_step. fold (absolute base_url href).
  set (a := absolute base_url href).
  assert (forall u, (exists h, h ∈ processed ++ [href] /\ u = absolute base_url h)
                    <-> (exists h, h ∈ processed /\ u = absolute base_url h) \/ u = a) as Hex.
  { intros u. split.
    - intros (h & [Hh | ->%list_elem_of_singleton]%elem_of_app & ->); [left; eauto | by right].
    - intros [(h & Hh & ->) | ->].
      + exists h. split; [apply elem_of_app; by left | done].
      + exists href. split; [apply elem_of_app; right; by apply list_elem_of_singleton | done]. }
  assert (sublist state.1 (map (absolute base_url) (processed ++ [href]))) as Hsub'.
  { rewrite map_app. by apply sublist_inserts_r. }
  destruct (bool_decide (scheme a = "http") || bool_decide (scheme a = "https")) eqn:Hweb;
    cbn [negb].
  - apply orb_true_iff in Hweb. rewrite !bool_decide_eq_true in Hweb.
    case_bool_decide as Hs.
    + split; [done|]. split; [done|]. split; [|done].
      intros u. rewrite Hex. split.
      * intros Hu. apply Hin in Hu as [Hw Hu]. auto.
      * intros [Hw [Hold | ->]]; [by apply Hin | by apply Hseen].
    + cbn [fst snd]. split; [|split; [|split]].
      * apply NoDup_app. repeat split; [done | | apply NoDup_singleton].
        intros u Hu ->%list_elem_of_singleton. by apply Hs, Hseen.
      * intros u. rewrite elem_of_union, elem_of_app, elem_of_singleton,
          list_elem_of_singleton, Hseen. done.
      * intros u. rewrite elem_of_app, list_elem_of_singleton, Hex, Hin. split.
        -- intros [[Hw Hu] | ->]; auto.
        -- intros [Hw [Hold | ->]]; auto.
      * rewrite map_app. by apply sublist_app.
  - apply orb_false_iff in Hweb. rewrite !bool_decide_eq_false in Hweb.
    split; [done|]. split; [done|]. split; [|done].
    intros u. rewrite Hex. split.
    + intros Hu. apply Hin in Hu as [Hw Hu]. auto.
    + intros [Hw [Hold | ->]]; [by apply Hin | tauto].
Qed.

Lemma fold_link_step_collected base_url (todo processed : list string)
    (state : list string * gset string) :
  collected base_url processed state ->
  collected base_url (processed ++ todo) (fold_left (Parser.link_step base_url) todo state).
Proof.
  revert processed state. induction todo as [|href todo IH]; intros processed state Hc; simpl.
  - by rewrite app_nil_r.
  - rewrite (app_assoc processed [href] todo : processed ++ href :: todo = _).
    by apply IH, link_step_collected.
Qed.

(** X26. The links that [_extract_links] returns are pairwise distinct;
    they are exactly the anchors, made absolute and cut before [#], whose
    scheme is [http] or [https]; none holds a [#]; and they stand in the
    order of the anchors in the document. *)
Theorem extract_links_normalised hrefs base_url :
  let links := Parser._extract_links hrefs base_url in
  NoDup links
  /\ (forall u, u ∈ links <->
        (scheme u = "http" \/ scheme u = "https")
        /\ exists href, href ∈ hrefs /\ u = absolute base_url href)
  /\ (forall u, u ∈ links -> Py.contains "#" u = false)
  /\ sublist links (map (absolute base_url) hrefs).
Proof.
  intros links. subst links. unfold Parser._extract_links.
  destruct (fold_link_step_collected base_url hrefs [] ([], ∅)) as (Hnd & _ & Hin & Hsub).
  { split; [apply NoDup_nil_2|]. split; [set_solver|]. split; [|done].
    intros u. split; [by intros ?%elem_of_nil|].
    by intros (_ & h & ?%elem_of_nil & _). }
  cbn [app] in *.
  split; [done|]. split; [done|]. split; [|done].
  intros u (_ & h & _ & ->)%Hin. apply before_fragment_clean.
Qed.
End ParserFacts.

(** ** The further properties on the samples *)

Section FurtherSamples.
Import Sample.

(** No list at all, or an empty list of exclude patterns: every URL passes. *)
Lemma no_rules_accept_every_url_sample :
  CombinedFilter.should_crawl (CombinedFilter.from_config None (Some []) None None) home
  = true.
Proof.
  refine (proj1 (proj2 (no_rules_accept_every_url None (Some []) None None home _ _ _ _)));
    reflexivity.
Defined.

(** [.PDF] among the extensions rejects a path that ends in [.Pdf], though
    the include pattern matches every URL. *)
Lemma skipped_extension_rejects_sample :
  URLFilter.should_crawl (URLFilter.init (Some ["*"]) None (Some [".PDF"]))
    "https://example.com/a/report.Pdf" = false.
Proof.
  refine (proj1 (skipped_extension_rejects (Some ["*"]) None [".PDF"] ".PDF"
                   "https://example.com/a/report.Pdf" _ _)).
  - apply list_elem_of_here.
  - vm_compute. reflexivity.
Defined.

(** An unclosed bracket does not compile: as an include pattern it rejects
    the home page. *)
Lemma invalid_regex_matches_nothing_sample :
  URLFilter.should_crawl (URLFilter.init (Some ["[a-"]) None None) home = false.
Proof.
  refine (proj1 (proj2 (invalid_regex_matches_nothing "[a-" home _ _ _ _)));
    reflexivity.
Defined.

(** [/private/] occurs in the URL. *)
Lemma plain_pattern_is_substring_sample :
  URLFilter._match_pattern "https://example.com/private/x" "/private/" = true.
Proof.
  apply (proj2 (plain_pattern_is_substring "/private/" "https://example.com/private/x"
                  eq_refl eq_refl eq_refl)).
  exists "https://example.com", "x". reflexivity.
Defined.

(** A subdomain of the one allowed domain. *)
Lemma domain_filter_accepts_subdomains_sample :
  DomainFilter.should_crawl (DomainFilter.init (Some ["example.com"]))
    "https://blog.example.com/post" = true.
Proof.
  apply (domain_filter_accepts_subdomains ["example.com"] "example.com").
  - apply list_elem_of_here.
  - right. exists "blog". vm_compute. reflexivity.
Defined.

Lemma domain_filter_accepts_only_allowed_sample :
  exists domain, domain ∈ ["example.com"]
    /\ (netloc home = domain \/ Py.endswith (netloc home) ("." +:+ domain) = true).
Proof.
  apply (domain_filter_accepts_only_allowed ["example.com"] home).
  - discriminate.
  - vm_compute. reflexivity.
Defined.

(** A record appended to a log that ends in the middle of a line. *)
Lemma appended_line_joins_partial_sample :
  read (flush (write ("{b}" +:+ String TextIO.LF EmptyString)
                 (LocalFileStorage.mk
                    (Some (TextIO.join
                             (map (fun l => l +:+ String TextIO.LF EmptyString) ["{a}"])
                           +:+ "{tru"))
                    None)))
  = map (fun l => l +:+ String TextIO.LF EmptyString) ["{a}"]
    ++ [("{tru" +:+ "{b}") +:+ String TextIO.LF EmptyString].
Proof.
  refine (proj1 (appended_line_joins_partial ["{a}"] "{tru" "{b}" _ _ _)).
  - repeat constructor.
  - reflexivity.
  - reflexivity.
Defined.

(** Five pages at an interval of 2: fewer than 2 writes are pending. *)
Lemma unflushed_below_interval_sample :
  Z.of_nat (unflushed (CheckpointManager.calls
                         (manager_run (CheckpointManager.init LocalFileStorage.init 2)
                            (WriteMetadata home config_deep now
                             :: map WritePage five_pages)))) < 2.
Proof.
  refine (proj2 (unflushed_below_interval LocalFileStorage.init 2
                   (WriteMetadata home config_deep now :: map WritePage five_pages) _)).
  lia.
Defined.

(** The end of a crawl on the local file. *)
Lemma crawl_end_leaves_all_durable_sample :
  exists m',
    Crawler.checkpoint_manager (Crawler.crawl_end now failing_crawler) = Some m'
    /\ unflushed (CheckpointManager.calls m') = O.
Proof.
  destruct (crawl_end_leaves_all_durable local_file_laws failing_crawler
              (CheckpointManager.init LocalFileStorage.init 2) now eq_refl)
    as (m' & Hm & _ & _ & Hu & _).
  exists m'. split; [exact Hm | exact Hu].
Defined.


Lemma worker_leaves_when_done_sample :
  Z.of_nat (length (Crawler.pages Runs.worked))
    >= CrawlConfig.max_pages (Crawler.config Runs.started)
  \/ (Scheduler.queue (Crawler.scheduler Runs.worked) = []
      /\ Crawler.pages Runs.worked <> []).
Proof.
  apply (worker_leaves_when_done (fun _ => now) 10 Runs.started Runs.worked).
  vm_compute. reflexivity.
Defined.

(** The sample site does not serve the start URL: the worker is still in
    its loop after a thousand turns. *)
Lemma crawl_never_ends_without_first_page_sample :
  Crawler._worker (fun _ => now) 1000 Runs.lost = None.
Proof.
  refine (crawl_never_ends_without_first_page (Some config_deep) None
            (Some (CheckpointManager.init LocalFileStorage.init 2))
            "https://example.com/missing" now (Raised "ClientError") _ _
            (fun _ => now) 1000).
  - vm_compute. discriminate.
  - left. reflexivity.
Defined.


(** The sample frontier, saved and restored into a new crawler. *)
Lemma restored_start_domain_sample :
  Scheduler.start_domain
    (Crawler.scheduler
       (Eff.exec
          (Crawler.restore_state
             (CheckpointManager.state_record (Scheduler.visited Runs.frontier)
                (Scheduler.queue Runs.frontier) (Scheduler.filtered Runs.frontier) now))
          (Crawler.init (Some config_shallow) None (@None (CheckpointManager.t LocalFileStorage.t)))))
  = Scheduler.start_domain Runs.frontier.
Proof.
  refine (proj1 (restored_start_domain 2 None home 0
                   [Scheduler.Get; Scheduler.Add "https://example.com/a" 1;
                    Scheduler.Add "https://other.org/b" 1]
                   (Some config_shallow) None None now _)).
  vm_compute. intros [=].
Defined.

(** A time-out, a refused connection, then an answer: three requests. *)
Lemma fetch_returns_first_answer_sample :
  (Fetcher.fetch (Fetcher.__aenter__ Fetcher.defaults) Runs.flaky home).1
  = inr ("<html></html>", 200).
Proof.
  refine (proj1 (fetch_returns_first_answer (Fetcher.__aenter__ Fetcher.defaults)
                   Runs.flaky home "<html></html>" 200 2 _ _ _ _)).
  - reflexivity.
  - simpl. lia.
  - intros j Hj. destruct j as [|[|j]]; [exact I | exact I | lia].
  - reflexivity.
Defined.

(** Three requests without an answer: the last exception is raised. *)
Lemma fetch_gives_up_after_last_attempt_sample :
  (Fetcher.fetch (Fetcher.__aenter__ Fetcher.defaults) Runs.down home).1
  = inl (Raised "ClientConnectorError").
Proof.
  refine (proj1 (fetch_gives_up_after_last_attempt (Fetcher.__aenter__ Fetcher.defaults)
                   Runs.down home 2 _ _ _)).
  - reflexivity.
  - reflexivity.
  - intros j Hj. destruct j as [|[|[|j]]]; [exact I | exact I | exact I | lia].
Defined.
End FurtherSamples.
